(** * advfacialrec: the identity matching and enrollment core of
    [src/app/page.tsx]

    A shallow embedding of the registry ([knownPersons]), the nearest
    neighbour scan and match decision of [startDetection], the notification
    debounce around [lastDetectedPerson], and the [localStorage] codec of the
    two [useEffect] hooks, followed by the properties the specification
    states about them.

    Conventions of the embedding:
    - a JavaScript number is a [number]: NaN, the two infinities, or an
      exact rational.  Comparisons and special values follow IEEE 754;
      the rounding of arithmetic to binary64 is not modelled, and the two
      signed zeros are one value (as they are for [===]);
    - a [Float32Array] is the list of its elements, and its constructor
      rounds every element to binary32 ([fround]);
    - an exception is a [Throw] of the [Completion] type;
    - a React state variable is a constant of the render it was read in: a
      callback that outlives the render keeps the values of that render,
      and a [set...] call changes the state seen by later renders only. *)

From Stdlib Require Import QArith Qabs Qround Qpower Lqa Lia ZArith String List Bool.
From stdpp Require Import base option list strings.

Local Open Scope string_scope.
Local Open Scope list_scope.

(** ** JavaScript numbers *)

Inductive number : Type :=
  | NaN
  | NegInfinity
  | Finite (q : Q)
  | Infinity.

Module Number.

Local Open Scope Q_scope.

Definition zero : number := Finite 0.
Definition one : number := Finite 1.

(** [a < b]; every comparison with NaN is false. *)
Definition ltb (a b : number) : bool :=
  match a, b with
  | NaN, _ | _, NaN => false
  | NegInfinity, NegInfinity => false
  | NegInfinity, _ => true
  | Finite _, NegInfinity => false
  | Finite x, Finite y => negb (Qle_bool y x)
  | Finite _, Infinity => true
  | Infinity, _ => false
  end.

(** [a <= b]. *)
Definition leb (a b : number) : bool :=
  match a, b with
  | NaN, _ | _, NaN => false
  | NegInfinity, _ => true
  | Finite _, NegInfinity => false
  | Finite x, Finite y => Qle_bool x y
  | Finite _, Infinity => true
  | Infinity, Infinity => true
  | Infinity, _ => false
  end.

Definition isFinite (a : number) : bool :=
  match a with Finite _ => true | _ => false end.

Definition opp (a : number) : number :=
  match a with
  | NaN => NaN
  | NegInfinity => Infinity
  | Finite x => Finite (- x)
  | Infinity => NegInfinity
  end.

(** [a + b]. *)
Definition add (a b : number) : number :=
  match a, b with
  | NaN, _ | _, NaN => NaN
  | Infinity, NegInfinity | NegInfinity, Infinity => NaN
  | Infinity, _ | _, Infinity => Infinity
  | NegInfinity, _ | _, NegInfinity => NegInfinity
  | Finite x, Finite y => Finite (x + y)
  end.

(** [a - b]. *)
Definition sub (a b : number) : number := add a (opp b).

Definition sign_of (x : Q) : comparison := Qcompare x 0.

(** [a * b]; an infinity times zero is NaN. *)
Definition mul (a b : number) : number :=
  let inf_times (positive : bool) (y : Q) :=
    match sign_of y with
    | Eq => NaN
    | Gt => if positive then Infinity else NegInfinity
    | Lt => if positive then NegInfinity else Infinity
    end in
  match a, b with
  | NaN, _ | _, NaN => NaN
  | Finite x, Finite y => Finite (x * y)
  | Infinity, Finite y | Finite y, Infinity => inf_times true y
  | NegInfinity, Finite y | Finite y, NegInfinity => inf_times false y
  | Infinity, Infinity | NegInfinity, NegInfinity => Infinity
  | Infinity, NegInfinity | NegInfinity, Infinity => NaN
  end.

(** [Math.sqrt]: exact when numerator and denominator are perfect squares,
    as they are for the square of a rational, which is all the concrete
    runs below need; elsewhere the two are rooted separately and rounded
    down. *)
Definition sqrt (a : number) : number :=
  match a with
  | NaN | NegInfinity => NaN
  | Infinity => Infinity
  | Finite x =>
      match Qnum x with
      | Zneg _ => NaN
      | n => Finite (Z.sqrt n # Pos.sqrt (Qden x))
      end
  end.

(** Rounding of a non-negative rational to the nearest integer, ties to
    the even one. *)
Definition round_half_even (x : Q) : Z :=
  let f := Qfloor x in
  match Qcompare (x - inject_Z f) (1 # 2) with
  | Lt => f
  | Gt => (f + 1)%Z
  | Eq => if Z.even f then f else (f + 1)%Z
  end.

(** [floor (log2 a)] for [a > 0]. *)
Definition ilog2 (a : Q) : Z :=
  let e0 := (Z.log2 (Qnum a) - Z.log2 (Zpos (Qden a)))%Z in
  if Qle_bool (2 ^ e0) a then e0 else (e0 - 1)%Z.

(** [Math.fround], the conversion the [Float32Array] constructor applies
    to each element: round to the nearest binary32 value (24 significant
    bits, least exponent -149, overflow to an infinity from 2^128). *)
Definition fround (a : number) : number :=
  match a with
  | Finite q =>
      if Qeq_bool q 0 then Finite 0
      else
        let m := Qabs q in
        let ulp := Z.max (ilog2 m - 23) (-149) in
        let v := inject_Z (round_half_even (m / 2 ^ ulp)) * 2 ^ ulp in
        if Qle_bool (2 ^ 128) v
        then (if Qle_bool 0 q then Infinity else NegInfinity)
        else Finite (Qred (if Qle_bool 0 q then v else - v))
  | _ => a
  end.

End Number.

(** ** Exceptions *)

(** The outcome of evaluating code that may throw. *)
Inductive Completion (A : Type) : Type :=
  | Normal (a : A)
  | Throw (error : string).
Arguments Normal {A} a.
Arguments Throw {A} error.

Definition bind {A B} (c : Completion A) (k : A -> Completion B) : Completion B :=
  match c with
  | Normal a => k a
  | Throw e => Throw e
  end.

Notation "x <- c ;; k" := (bind c (fun x => k))
  (at level 100, c at next level, right associativity).

(** [xs.map(f)] for an [f] that may throw: the first exception ends it. *)
Fixpoint mapM {A B} (f : A -> Completion B) (xs : list A) : Completion (list B) :=
  match xs with
  | [] => Normal []
  | x :: rest => y <- f x ;; ys <- mapM f rest ;; Normal (y :: ys)
  end.

(** ** Data model *)

Definition Float32Array : Type := list number.

(** [interface Person]. *)
Record Person : Type := {
  name : string;
  descriptors : list Float32Array;
  photos : list string;
}.

(** ** Enrollment ([processUploadedImage], [captureFace]) *)

(** [persons.findIndex((p) => p.name === newPersonName)]; [None] is -1. *)
Definition findIndex (newPersonName : string) (persons : list Person) : option nat :=
  fst <$> list_find (fun p => name p = newPersonName) persons.

(** The function both handlers pass to [setKnownPersons] once a face
    descriptor and its photo are at hand. [existingPersonIndex] is computed
    on [knownPersons], the registry of the render the handler runs in; the
    updater receives [prev], the registry at the time React applies it.
    Reading [.descriptors] of a missing [updated[existingPersonIndex]] is a
    TypeError. *)
Definition enrollUpdater (knownPersons : list Person) (newPersonName : string)
    (faceDescriptor : Float32Array) (photo : string)
    (prev : list Person) : Completion (list Person) :=
  match findIndex newPersonName knownPersons with
  | Some existingPersonIndex =>
      let updated := prev in
      match updated !! existingPersonIndex with
      | Some person =>
          Normal (<[existingPersonIndex :=
                     {| name := name person;
                        descriptors := descriptors person ++ [faceDescriptor];
                        photos := photos person ++ [photo] |}]> updated)
      | None => Throw "TypeError"
      end
  | None =>
      Normal (prev ++ [{| name := newPersonName;
                          descriptors := [faceDescriptor];
                          photos := [photo] |}])
  end.

(** [processUploadedImage] from line 273 on, that is once the guard of line
    245 has passed and the detector has answered: what it passes to
    [setKnownPersons] ([None] when it returns without calling it).  With
    several faces the first detection is used. *)
Definition processUploadedImage (knownPersons : list Person) (newPersonName : string)
    (uploadedImage : string) (detections : list Float32Array)
    : option (list Person -> Completion (list Person)) :=
  match detections with
  | [] => None
  | faceDescriptor :: _ =>
      Some (enrollUpdater knownPersons newPersonName faceDescriptor uploadedImage)
  end.

(** [captureFace] from line 370 on, with the snapshot [photoDataUrl] of the
    video frame: it enrolls only when exactly one face is detected. *)
Definition captureFace (knownPersons : list Person) (newPersonName : string)
    (photoDataUrl : string) (detections : list Float32Array)
    : option (list Person -> Completion (list Person)) :=
  match detections with
  | [faceDescriptor] =>
      Some (enrollUpdater knownPersons newPersonName faceDescriptor photoDataUrl)
  | _ => None
  end.

(** Enrollment when the render is up to date, that is when no other update
    of the registry is pending: [prev] is [knownPersons]. *)
Definition enroll (newPersonName : string) (faceDescriptor : Float32Array)
    (photo : string) (knownPersons : list Person) : Completion (list Person) :=
  enrollUpdater knownPersons newPersonName faceDescriptor photo knownPersons.

(** [prev.filter((_, i) => i !== index)]. *)
Fixpoint filter_index (index : nat) (i : nat) (prev : list Person) : list Person :=
  match prev with
  | [] => []
  | p :: rest =>
      if Nat.eqb i index then filter_index index (S i) rest
      else p :: filter_index index (S i) rest
  end.

Definition deletePerson (index : nat) (prev : list Person) : list Person :=
  filter_index index 0 prev.

(** ** Matching and decision ([startDetection], the interval callback) *)

(** [bestMatch]. *)
Record BestMatch : Type := {
  label : string;
  distance : number;
}.

Definition unknownMatch : BestMatch :=
  {| label := "unknown"; distance := Finite 1 |}.

Section Matching.

(** [faceapi.euclideanDistance], a function of the face-api.js library;
    it throws when its arguments differ in length. *)
Variable euclideanDistance : Float32Array -> Float32Array -> Completion number.

(** The body of the innermost loop, for one enrolled descriptor. *)
Definition compareDescriptor (observed : Float32Array) (personName : string)
    (bestMatch : BestMatch) (descriptor : Float32Array) : Completion BestMatch :=
  d <- euclideanDistance descriptor observed ;;
  Normal (if Number.ltb d (distance bestMatch)
          then {| label := personName; distance := d |}
          else bestMatch).

(** [for (const descriptor of person.descriptors)]. *)
Fixpoint scanDescriptors (observed : Float32Array) (personName : string)
    (ds : list Float32Array) (bestMatch : BestMatch) : Completion BestMatch :=
  match ds with
  | [] => Normal bestMatch
  | descriptor :: rest =>
      b <- compareDescriptor observed personName bestMatch descriptor ;;
      scanDescriptors observed personName rest b
  end.

(** [for (const person of knownPersons)]. *)
Fixpoint scanPersons (observed : Float32Array) (persons : list Person)
    (bestMatch : BestMatch) : Completion BestMatch :=
  match persons with
  | [] => Normal bestMatch
  | person :: rest =>
      b <- scanDescriptors observed (name person) (descriptors person) bestMatch ;;
      scanPersons observed rest b
  end.

(** The best match of one detected face: the scan started from
    [{ label: "unknown", distance: 1.0 }]. *)
Definition findBestMatch (knownPersons : list Person) (observed : Float32Array)
    : Completion BestMatch :=
  scanPersons observed knownPersons unknownMatch.

End Matching.

(** [bestMatch.distance < 1 - confidenceThreshold]. *)
Definition isMatch (bestMatch : BestMatch) (confidenceThreshold : number) : bool :=
  Number.ltb (distance bestMatch) (Number.sub Number.one confidenceThreshold).

(** Modelled from the spec: [faceapi.euclideanDistance] is code of the
    face-api.js library, which the repository does not contain.  Section 4.1
    gives it as [sqrt(sum((a[i]-b[i])^2))], defined only for arguments of
    one length and failing otherwise.  It instantiates the parameter of
    [findBestMatch] wherever the model is run on concrete descriptors. *)
Definition faceapi_euclideanDistance (arr1 arr2 : Float32Array) : Completion number :=
  if Nat.eqb (length arr1) (length arr2)
  then Normal (Number.sqrt
                 (fold_left (fun res diff => Number.add res (Number.mul diff diff))
                            (zip_with Number.sub arr1 arr2) Number.zero))
  else Throw "euclideanDistance: arr1.length !== arr2.length".

(** ** Detection session ([startDetection], [stopDetection]) *)

(** The [useState] values the core reads.  One value of this record is both
    the current state of the component and, seen from a callback, the
    snapshot of the render that created the callback. *)
Record State : Type := {
  isStreamActive : bool;
  knownPersons : list Person;
  detectionActive : bool;
  notificationsEnabled : bool;
  lastDetectedPerson : option string;
  confidenceThreshold : number;
}.

(** The component state together with what the core has emitted: the
    arguments of the [sendNotification] calls, oldest first, and the
    [console.error] calls. *)
Record World : Type := {
  state : State;
  notified : list string;
  console : list (string * string);
}.

Definition setLastDetectedPerson (v : option string) (w : World) : World :=
  {| state := {| isStreamActive := isStreamActive (state w);
                 knownPersons := knownPersons (state w);
                 detectionActive := detectionActive (state w);
                 notificationsEnabled := notificationsEnabled (state w);
                 lastDetectedPerson := v;
                 confidenceThreshold := confidenceThreshold (state w) |};
     notified := notified w;
     console := console w |}.

Definition setDetectionActive (v : bool) (w : World) : World :=
  {| state := {| isStreamActive := isStreamActive (state w);
                 knownPersons := knownPersons (state w);
                 detectionActive := v;
                 notificationsEnabled := notificationsEnabled (state w);
                 lastDetectedPerson := lastDetectedPerson (state w);
                 confidenceThreshold := confidenceThreshold (state w) |};
     notified := notified w;
     console := console w |}.

(** [sendNotification(personName)]: a web notification where permitted, and
    always a toast. *)
Definition sendNotification (personName : string) (w : World) : World :=
  {| state := state w;
     notified := notified w ++ [personName];
     console := console w |}.

Definition console_error (message error : string) (w : World) : World :=
  {| state := state w;
     notified := notified w;
     console := console w ++ [(message, error)] |}.

(** What one cycle finds when it fires: no video or canvas to work on
    (the callback returns at once), a detector that throws, or the
    descriptors of the detected faces in detection order. *)
Inductive Frame : Type :=
  | NoCanvas
  | DetectorFailed (error : string)
  | Faces (detections : list Float32Array).

Section Controller.

Variable euclideanDistance : Float32Array -> Float32Array -> Completion number.

(** Lines 523-544, for one face whose best match is known.  [render] is
    the snapshot captured by the interval callback: [confidenceThreshold],
    [notificationsEnabled] and [lastDetectedPerson] are read from it,
    while [setLastDetectedPerson] writes the live state. *)
Definition handleMatch (render : State) (bestMatch : BestMatch) (w : World) : World :=
  let isMatch := isMatch bestMatch (confidenceThreshold render) in
  if isMatch && negb (String.eqb (label bestMatch) "unknown")
     && notificationsEnabled render
  then
    let personName := label bestMatch in
    if bool_decide (Some personName <> lastDetectedPerson render)
    then sendNotification personName (setLastDetectedPerson (Some personName) w)
    else w
  else if negb isMatch then setLastDetectedPerson None w
  else w.

(** [for (const detection of resizedDetections)]; an exception leaves the
    loop with the effects made so far. *)
Fixpoint forEachDetection (render : State) (detections : list Float32Array)
    (w : World) : World * option string :=
  match detections with
  | [] => (w, None)
  | descriptor :: rest =>
      match findBestMatch euclideanDistance (knownPersons render) descriptor with
      | Throw e => (w, Some e)
      | Normal bestMatch => forEachDetection render rest (handleMatch render bestMatch w)
      end
  end.

(** One run of the interval callback. *)
Definition detectionTick (render : State) (frame : Frame) (w : World) : World :=
  match frame with
  | NoCanvas => w
  | DetectorFailed e => console_error "Error during detection:" e w
  | Faces detections =>
      if Nat.eqb (length detections) 0 then w
      else
        match forEachDetection render detections w with
        | (w', None) => w'
        | (w', Some e) => console_error "Error during detection:" e w'
        end
  end.

(** [startDetection]: refused without a stream or with an empty registry;
    otherwise the interval callback is created and closes over the
    current render, which is returned as the running session. *)
Definition startDetection (w : World) : World * option State :=
  let render := state w in
  if negb (isStreamActive render) || Nat.eqb (length (knownPersons render)) 0
  then (w, None)
  else (setDetectionActive true w, Some render).

Definition stopDetection (w : World) : World :=
  setLastDetectedPerson None (setDetectionActive false w).

(** The cycles of one session, in order. *)
Definition runCycles (render : State) (frames : list Frame) (w : World) : World :=
  fold_left (fun w frame => detectionTick render frame w) frames w.

(** A session from start: the frames seen by the successive cycles. *)
Definition session (w : World) (frames : list Frame) : World :=
  match startDetection w with
  | (w', Some render) => runCycles render frames w'
  | (w', None) => w'
  end.

End Controller.

(** ** Persistence (the two [useEffect] hooks) *)

Local Set Warnings "-register-all".

(** A value as [JSON.parse] produces it.  The properties of an object are
    listed in enumeration order and have distinct keys. *)
Inductive json : Type :=
  | JNull
  | JBool (b : bool)
  | JNumber (n : number)
  | JString (s : string)
  | JArray (items : list json)
  | JObject (properties : list (string * json)).

(** The text of a [localStorage] item, taken by what [JSON.parse] makes of
    it: either it is not JSON, or it denotes a value. *)
Inductive blob : Type :=
  | NotJSON (text : string)
  | JSONText (value : json).

(** What [JSON.parse(JSON.stringify(v))] makes of a value built from
    arrays, plain objects, strings and numbers: a number that is not
    finite is written as [null]. *)
Fixpoint toJSON (v : json) : json :=
  match v with
  | JNumber n => if Number.isFinite n then JNumber n else JNull
  | JArray items => JArray (List.map toJSON items)
  | JObject properties =>
      JObject (List.map (fun kv => (fst kv, toJSON (snd kv))) properties)
  | _ => v
  end.

Definition JSON_stringify (v : json) : blob := JSONText (toJSON v).

Definition JSON_parse (text : blob) : Completion json :=
  match text with
  | NotJSON _ => Throw "SyntaxError"
  | JSONText v => Normal v
  end.

(** [serializablePersons], lines 154-158; [Array.from(desc)] lists the
    elements of the [Float32Array] as numbers. *)
Definition serializablePersons (persons : list Person) : json :=
  JArray (List.map (fun person =>
    JObject [("name", JString (name person));
             ("descriptors",
              JArray (List.map (fun desc => JArray (List.map JNumber desc))
                               (descriptors person)));
             ("photos", JArray (List.map JString (photos person)))]) persons).

(** The effect of lines 151-161 on the item ["knownPersons"]; [None] is an
    absent item. *)
Definition persistKnownPersons (persons : list Person) (localStorage : option blob)
    : option blob :=
  if Nat.ltb 0 (length persons)
  then Some (JSON_stringify (serializablePersons persons))
  else localStorage.

(** [setKnownPersons(update)] followed by the effect that depends on
    [knownPersons]: the registry and the stored item after the update. *)
Definition commit (update : list Person -> Completion (list Person))
    (app : list Person * option blob) : Completion (list Person * option blob) :=
  persons <- update (fst app) ;;
  Normal (persons, persistKnownPersons persons (snd app)).

(** A restored entry: [person.name] and [person.photos] are copied as they
    are found ([None] is [undefined]). *)
Record RestoredPerson : Type := {
  restored_name : option json;
  restored_descriptors : list Float32Array;
  restored_photos : option json;
}.

(** The restored entry a well-typed [Person] corresponds to. *)
Definition untyped (person : Person) : RestoredPerson :=
  {| restored_name := Some (JString (name person));
     restored_descriptors := descriptors person;
     restored_photos := Some (JArray (List.map JString (photos person))) |}.

Section Restoring.

(** [ToNumber] of a string, an array or an object (ECMAScript's
    StringToNumber and ToPrimitive), left uninterpreted. *)
Variable ToNumber_other : json -> Completion number.

(** [v.key] for one of the keys [name], [descriptors], [photos], which
    only an object can have. *)
Definition getProperty (v : json) (key : string) : Completion (option json) :=
  match v with
  | JNull => Throw "TypeError"
  | JObject properties =>
      Normal (snd <$> (snd <$> list_find (fun kv => fst kv = key) properties))
  | _ => Normal None
  end.

(** [v.map(f)]: only an array has a [map] to call. *)
Definition array_map {B} (v : option json) (f : json -> Completion B)
    : Completion (list B) :=
  match v with
  | Some (JArray items) => mapM f items
  | _ => Throw "TypeError"
  end.

Definition Object_values (v : json) : Completion (list json) :=
  match v with
  | JNull => Throw "TypeError"
  | JBool _ | JNumber _ => Normal []
  | JString s => Normal (List.map (fun c => JString (String c "")) (list_ascii_of_string s))
  | JArray items => Normal items
  | JObject properties => Normal (List.map snd properties)
  end.

Definition ToNumber (v : json) : Completion number :=
  match v with
  | JNull => Normal Number.zero
  | JBool b => Normal (if b then Number.one else Number.zero)
  | JNumber n => Normal n
  | _ => ToNumber_other v
  end.

(** [new Float32Array(values)]. *)
Definition new_Float32Array (values : list json) : Completion Float32Array :=
  mapM (fun v => n <- ToNumber v ;; Normal (Number.fround n)) values.

(** Lines 127-131. *)
Definition restorePersons (parsedPersons : json) : Completion (list RestoredPerson) :=
  array_map (Some parsedPersons) (fun person =>
    person_name <- getProperty person "name" ;;
    person_descriptors <- getProperty person "descriptors" ;;
    restored <- array_map person_descriptors (fun desc =>
                  values <- Object_values desc ;; new_Float32Array values) ;;
    person_photos <- getProperty person "photos" ;;
    Normal {| restored_name := person_name;
              restored_descriptors := restored;
              restored_photos := person_photos |}).

(** [if (savedPersons)]: an absent item and the empty string are falsy. *)
Definition truthy (savedPersons : option blob) : bool :=
  match savedPersons with
  | None | Some (NotJSON "") => false
  | Some _ => true
  end.

(** Lines 122-136: the registry after mount (it starts empty) and what
    was written to the console. *)
Definition loadSavedPersons (savedPersons : option blob)
    : list RestoredPerson * list (string * string) :=
  match savedPersons with
  | Some text =>
      if truthy savedPersons then
        match (parsedPersons <- JSON_parse text ;; restorePersons parsedPersons) with
        | Normal restoredPersons => (restoredPersons, [])
        | Throw e => ([], [("Error loading saved persons:", e)])
        end
      else ([], [])
  | None => ([], [])
  end.

End Restoring.

(** ** The scan as a fold over the enrolled descriptors *)

(** The enrolled descriptors in the order the two loops visit them: oldest
    identity first, and within an identity oldest descriptor first. *)
Definition enrolled (persons : list Person) : list (string * Float32Array) :=
  flat_map (fun person => List.map (pair (name person)) (descriptors person)) persons.

(** One step of the scan on a distance already computed. *)
Definition pick (bestMatch : BestMatch) (candidate : string * number) : BestMatch :=
  if Number.ltb (snd candidate) (distance bestMatch)
  then {| label := fst candidate; distance := snd candidate |}
  else bestMatch.

Section Candidates.

Variable euclideanDistance : Float32Array -> Float32Array -> Completion number.

Definition measure (observed : Float32Array) (entry : string * Float32Array)
    : Completion (string * number) :=
  d <- euclideanDistance (snd entry) observed ;; Normal (fst entry, d).

(** Every enrolled descriptor with its distance from the observation, in
    scan order; an exception if some distance cannot be computed. *)
Definition candidates (persons : list Person) (observed : Float32Array)
    : Completion (list (string * number)) :=
  mapM (measure observed) (enrolled persons).

End Candidates.

(** [r] is what the scan owes on the candidates [cs]: the start value when
    no distance is below 1, and otherwise the first candidate of least
    distance. *)
Definition best_of (cs : list (string * number)) (r : BestMatch) : Prop :=
  (r = unknownMatch /\
   forall c, c ∈ cs -> Number.ltb (snd c) Number.one = false)
  \/
  (exists i,
     cs !! i = Some (label r, distance r) /\
     Number.ltb (distance r) Number.one = true /\
     (forall c, c ∈ cs -> Number.ltb (snd c) (distance r) = false) /\
     (forall j c, j < i -> cs !! j = Some c -> Number.leb (snd c) (distance r) = false)).

(** A threshold strictly between 0 and 1. *)
Definition in_unit_interval (t : number) : Prop :=
  Number.ltb Number.zero t = true /\ Number.ltb t Number.one = true.

(** Every element of every descriptor is a finite binary32 value. *)
Definition storable (persons : list Person) : Prop :=
  forall person desc x,
    person ∈ persons -> desc ∈ descriptors person -> x ∈ desc ->
    Number.isFinite x = true /\ Number.fround x = x.

Definition rounded (person : Person) : Person :=
  {| name := name person;
     descriptors := List.map (List.map Number.fround) (descriptors person);
     photos := photos person |}.

(** ** Concrete inputs

    One-element descriptors keep the runs small; the Euclidean distance of
    two of them is the absolute difference of their elements.  Every
    element below is a binary32 value, as the elements of a [Float32Array]
    are. *)

Definition ann : Person :=
  {| name := "Ann"; descriptors := [[Finite 0]]; photos := ["ann.jpg"] |}.

Definition bob : Person :=
  {| name := "Bob"; descriptors := [[Finite (1 # 2)]]; photos := ["bob.jpg"] |}.

(** A person enrolled under the name the scan starts from. *)
Definition person_named_unknown : Person :=
  {| name := "unknown"; descriptors := [[Finite 0]]; photos := ["who.jpg"] |}.

(** A person whose descriptor holds a NaN. *)
Definition ann_with_nan : Person :=
  {| name := "Ann"; descriptors := [[NaN]]; photos := ["ann.jpg"] |}.

(** A face at distance 0.25 from Ann's descriptor (and from Bob's). *)
Definition face_near_ann : Float32Array := [Finite (1 # 4)].

(** A face at distance 1.5 from Ann's descriptor. *)
Definition face_far : Float32Array := [Finite (3 # 2)].

(** Ann is enrolled, the camera runs, notifications are on, nobody has
    been announced, and the threshold is the default 0.6. *)
Definition ready_world : World :=
  {| state := {| isStreamActive := true;
                 knownPersons := [ann];
                 detectionActive := false;
                 notificationsEnabled := true;
                 lastDetectedPerson := None;
                 confidenceThreshold := Finite 0.6 |};
     notified := [];
     console := [] |}.

(** A stored item in which Ann has two descriptors of lengths 2 and 3 and
    no photo at all. *)
Definition ragged_item : blob :=
  JSONText (JArray [JObject
    [("name", JString "Ann");
     ("descriptors",
      JArray [JArray [JNumber (Finite 1); JNumber (Finite 2)];
              JArray [JNumber (Finite 1); JNumber (Finite 2); JNumber (Finite 3)]]);
     ("photos", JArray [])]]).

(** An instance of the uninterpreted conversion for the concrete runs, none
    of which reaches it: the NaN that [ToNumber] gives for text that is not
    numeric and for a plain object. *)
Definition ToNumber_not_numeric (v : json) : Completion number := Normal NaN.

(** ** The rest of the component

    What follows embeds the code around the core: the label drawn on a
    face, the loading of the models, the camera, the notification switch,
    and the page as a whole with its interval and its stored item. *)

(** [Math.round]: the nearest integer, a half going up. *)
Definition Math_round (a : number) : number :=
  match a with
  | Finite x => Finite (inject_Z (Qfloor (x + (1 # 2))))
  | _ => a
  end.

(** [confidence], line 523: the percentage shown in the label of the box. *)
Definition confidence (bestMatch : BestMatch) : number :=
  Math_round (Number.mul (Number.sub Number.one (distance bestMatch)) (Finite 100)).

(** The setters of the other state variables. *)
Definition withState (f : State -> State) (w : World) : World :=
  {| state := f (state w); notified := notified w; console := console w |}.

Definition setIsStreamActive (v : bool) (s : State) : State :=
  {| isStreamActive := v;
     knownPersons := knownPersons s;
     detectionActive := detectionActive s;
     notificationsEnabled := notificationsEnabled s;
     lastDetectedPerson := lastDetectedPerson s;
     confidenceThreshold := confidenceThreshold s |}.

Definition setKnownPersons (v : list Person) (s : State) : State :=
  {| isStreamActive := isStreamActive s;
     knownPersons := v;
     detectionActive := detectionActive s;
     notificationsEnabled := notificationsEnabled s;
     lastDetectedPerson := lastDetectedPerson s;
     confidenceThreshold := confidenceThreshold s |}.

Definition setNotificationsEnabled (v : bool) (s : State) : State :=
  {| isStreamActive := isStreamActive s;
     knownPersons := knownPersons s;
     detectionActive := detectionActive s;
     notificationsEnabled := v;
     lastDetectedPerson := lastDetectedPerson s;
     confidenceThreshold := confidenceThreshold s |}.

Definition setConfidenceThreshold (v : number) (s : State) : State :=
  {| isStreamActive := isStreamActive s;
     knownPersons := knownPersons s;
     detectionActive := detectionActive s;
     notificationsEnabled := notificationsEnabled s;
     lastDetectedPerson := lastDetectedPerson s;
     confidenceThreshold := v |}.

(** *** Restoring one entry *)

Section RestoringEntries.

Variable ToNumber_other : json -> Completion number.

(** The function [restorePersons] maps over the parsed array, lines
    127-131. *)
Definition restoreEntry (person : json) : Completion RestoredPerson :=
  person_name <- getProperty person "name" ;;
  person_descriptors <- getProperty person "descriptors" ;;
  restored <- array_map person_descriptors (fun desc =>
                values <- Object_values desc ;;
                new_Float32Array ToNumber_other values) ;;
  person_photos <- getProperty person "photos" ;;
  Normal {| restored_name := person_name;
            restored_descriptors := restored;
            restored_photos := person_photos |}.

End RestoringEntries.

(** What an element of a descriptor is after it was stored and restored: a
    finite number rounded to binary32, anything else 0. *)
Definition reloaded_element (x : number) : number :=
  if Number.isFinite x then Number.fround x else Finite 0.

Definition reloaded (person : Person) : RestoredPerson :=
  {| restored_name := Some (JString (name person));
     restored_descriptors := List.map (List.map reloaded_element) (descriptors person);
     restored_photos := Some (JArray (List.map JString (photos person))) |}.

(** *** Loading the models ([loadModels], lines 47-117) *)

Inductive Net : Type :=
  | ssdMobilenetv1
  | faceLandmark68Net
  | faceRecognitionNet
  | faceExpressionNet.

Definition MODEL_URL : string := "https://justadudewhohacks.github.io/face-api.js/models".

Definition backupUrls : list string :=
  ["https://cdn.jsdelivr.net/gh/justadudewhohacks/face-api.js@master/weights";
   "https://raw.githubusercontent.com/justadudewhohacks/face-api.js/master/weights"].

Definition allNets : list Net :=
  [ssdMobilenetv1; faceLandmark68Net; faceRecognitionNet; faceExpressionNet].

(** The state [loadModels] writes, with the titles of its toasts and the
    messages of its [console.error] calls. *)
Record Loading : Type := {
  loadingStatus : string;
  modelLoadingProgress : nat;
  isModelLoaded : bool;
  toasts : list string;
  loading_console : list string;
}.

Definition initialLoading : Loading :=
  {| loadingStatus := "Initializing...";
     modelLoadingProgress := 0;
     isModelLoaded := false;
     toasts := [];
     loading_console := [] |}.

Definition setLoading (status : string) (progress : nat) (l : Loading) : Loading :=
  {| loadingStatus := status;
     modelLoadingProgress := progress;
     isModelLoaded := isModelLoaded l;
     toasts := toasts l;
     loading_console := loading_console l |}.

Definition setLoadingStatus (status : string) (l : Loading) : Loading :=
  setLoading status (modelLoadingProgress l) l.

Definition loaded (status toast : string) (l : Loading) : Loading :=
  {| loadingStatus := status;
     modelLoadingProgress := 100;
     isModelLoaded := true;
     toasts := toasts l ++ [toast];
     loading_console := loading_console l |}.

Definition loading_error (message : string) (l : Loading) : Loading :=
  {| loadingStatus := loadingStatus l;
     modelLoadingProgress := modelLoadingProgress l;
     isModelLoaded := isModelLoaded l;
     toasts := toasts l;
     loading_console := loading_console l ++ [message] |}.

Definition loading_toast (toast : string) (l : Loading) : Loading :=
  {| loadingStatus := loadingStatus l;
     modelLoadingProgress := modelLoadingProgress l;
     isModelLoaded := isModelLoaded l;
     toasts := toasts l ++ [toast];
     loading_console := loading_console l |}.

(** The four awaited loads of the [try] block, each announced first. *)
Definition primarySteps : list (string * nat * Net) :=
  [("Loading SSD MobileNet detector...", 20, ssdMobilenetv1);
   ("Loading face landmarks...", 40, faceLandmark68Net);
   ("Loading face recognition...", 60, faceRecognitionNet);
   ("Loading face expressions...", 80, faceExpressionNet)].

Section LoadModels.

(** [faceapi.nets.<net>.loadFromUri(url)]: whether the promise resolves.
    No net is asked twice for one address. *)
Variable loadFromUri : Net -> string -> bool.

(** The awaited loads in order; [false] when one rejects, which leaves the
    [try] block. *)
Fixpoint loadInOrder (steps : list (string * nat * Net)) (l : Loading)
    : Loading * bool :=
  match steps with
  | [] => (l, true)
  | (status, progress, net) :: rest =>
      let l' := setLoading status progress l in
      if loadFromUri net MODEL_URL then loadInOrder rest l' else (l', false)
  end.

(** [Promise.all] of the four loads from one address. *)
Definition loadAll (url : string) : bool :=
  forallb (fun net => loadFromUri net url) allNets.

(** [for (const backupUrl of backupUrls)], and what follows the loop. *)
Fixpoint tryBackups (urls : list string) (l : Loading) : Loading :=
  match urls with
  | [] =>
      loading_toast "Critical error"
        (setLoadingStatus "Failed to load models from all sources" l)
  | backupUrl :: rest =>
      let l' := setLoadingStatus ("Trying backup: " ++ backupUrl)%string l in
      if loadAll backupUrl
      then loaded "Backup models loaded successfully!" "Backup models loaded" l'
      else tryBackups rest
             (loading_error ("Backup " ++ backupUrl ++ " failed:")%string l')
  end.

Definition loadModels (l : Loading) : Loading :=
  match loadInOrder primarySteps l with
  | (l', true) => loaded "Models loaded successfully!" "Models loaded" l'
  | (l', false) =>
      tryBackups backupUrls
        (setLoadingStatus "Error loading models. Trying backup..."
           (loading_error "Error loading models:" l'))
  end.

End LoadModels.

(** *** The notification switch ([toggleNotifications], lines 605-631) *)

Inductive Permission : Type := granted | denied | default.

(** ["Notification" in window] and [Notification.permission]. *)
Record Browser : Type := {
  hasNotification : bool;
  permission : Permission;
}.

Definition is_granted (p : Permission) : bool :=
  match p with granted => true | _ => false end.

(** [answer] is what [Notification.requestPermission()] resolves to; it is
    the permission from then on. *)
Definition toggleNotifications (answer : Permission) (b : Browser) (s : State)
    : Browser * State :=
  if negb (notificationsEnabled s) && hasNotification b
     && negb (is_granted (permission b))
  then
    ({| hasNotification := hasNotification b; permission := answer |},
     if is_granted answer then setNotificationsEnabled true s else s)
  else (b, setNotificationsEnabled (negb (notificationsEnabled s)) s).

(** Whether [sendNotification] raises a web notification beside its toast,
    line 580. *)
Definition webNotification (b : Browser) : bool :=
  hasNotification b && is_granted (permission b).

(** *** The page: camera, interval, registry and stored item *)

(** The component with what lives outside [useState]: whether the models
    are loaded, whether the video element holds a stream, the running
    interval (given by the render its callback closes over), and the
    stored item. *)
Record Page : Type := {
  world : World;
  modelsLoaded : bool;
  srcObject : bool;
  detectionInterval : option State;
  localStorage : option blob;
}.

Definition withWorld (f : World -> World) (p : Page) : Page :=
  {| world := f (world p);
     modelsLoaded := modelsLoaded p;
     srcObject := srcObject p;
     detectionInterval := detectionInterval p;
     localStorage := localStorage p |}.

(** What the user and the timer do to the page.  A [Tick] is a cycle the
    timer starts and whose detector answers before anything else is done
    to the page; the end of a cycle that something overtakes is
    [finishCycle]. *)
Inductive Action : Type :=
  | StartWebcam (getUserMedia : Completion unit) (video : bool)
  | StopWebcam
  | StartDetection
  | StopDetection
  | Tick (frame : Frame)
  | Enroll (newPersonName : string) (faceDescriptor : Float32Array) (photo : string)
  | DeletePerson (index : nat)
  | ChangeThreshold (v : number)
  | SwitchNotifications (v : bool).

Section PageActions.

Variable euclideanDistance : Float32Array -> Float32Array -> Completion number.

(** [startWebcam], lines 164-197; [video] tells whether [videoRef.current]
    is there. *)
Definition startWebcam (getUserMedia : Completion unit) (video : bool) (p : Page)
    : Page :=
  if negb (modelsLoaded p) then p
  else
    match getUserMedia with
    | Throw e => withWorld (console_error "Error accessing webcam:" e) p
    | Normal _ =>
        if video
        then {| world := withState (setIsStreamActive true) (world p);
                modelsLoaded := modelsLoaded p;
                srcObject := true;
                detectionInterval := detectionInterval p;
                localStorage := localStorage p |}
        else p
    end.

(** [stopDetection] with its interval, lines 553-575. *)
Definition pageStopDetection (p : Page) : Page :=
  {| world := stopDetection (world p);
     modelsLoaded := modelsLoaded p;
     srcObject := srcObject p;
     detectionInterval := None;
     localStorage := localStorage p |}.

(** [stopWebcam], lines 200-217. *)
Definition stopWebcam (p : Page) : Page :=
  if srcObject p then
    let stopped :=
      {| world := withState (setIsStreamActive false) (world p);
         modelsLoaded := modelsLoaded p;
         srcObject := false;
         detectionInterval := detectionInterval p;
         localStorage := localStorage p |} in
    if detectionActive (state (world p)) then pageStopDetection stopped else stopped
  else p.

(** [startDetection] with its interval, lines 464-550. *)
Definition pageStartDetection (p : Page) : Page :=
  match startDetection (world p) with
  | (w, Some render) =>
      {| world := w;
         modelsLoaded := modelsLoaded p;
         srcObject := srcObject p;
         detectionInterval := Some render;
         localStorage := localStorage p |}
  | (w, None) => withWorld (fun _ => w) p
  end.

(** [setKnownPersons] with the effect of lines 151-161. *)
Definition pageSetKnownPersons (persons : list Person) (p : Page) : Page :=
  {| world := withState (setKnownPersons persons) (world p);
     modelsLoaded := modelsLoaded p;
     srcObject := srcObject p;
     detectionInterval := detectionInterval p;
     localStorage := persistKnownPersons persons (localStorage p) |}.

Definition act (p : Page) (a : Action) : Page :=
  match a with
  | StartWebcam getUserMedia video => startWebcam getUserMedia video p
  | StopWebcam => stopWebcam p
  | StartDetection => pageStartDetection p
  | StopDetection => pageStopDetection p
  | Tick frame =>
      match detectionInterval p with
      | Some render => withWorld (detectionTick euclideanDistance render frame) p
      | None => p
      end
  | Enroll newPersonName faceDescriptor photo =>
      match enroll newPersonName faceDescriptor photo (knownPersons (state (world p))) with
      | Normal persons => pageSetKnownPersons persons p
      | Throw _ => p
      end
  | DeletePerson index =>
      pageSetKnownPersons (deletePerson index (knownPersons (state (world p)))) p
  | ChangeThreshold v => withWorld (withState (setConfidenceThreshold v)) p
  | SwitchNotifications v => withWorld (withState (setNotificationsEnabled v)) p
  end.

Definition run (p : Page) (actions : list Action) : Page :=
  fold_left act actions p.

End PageActions.

(** The page keeps its switches consistent: the stream flag follows the
    video element, detection needs the stream, the stream needs the
    models, and an interval runs exactly while detection is flagged
    active, on a render that had a stream and somebody enrolled. *)
Definition consistent (p : Page) : Prop :=
  isStreamActive (state (world p)) = srcObject p /\
  (detectionActive (state (world p)) = true -> isStreamActive (state (world p)) = true) /\
  (isStreamActive (state (world p)) = true -> modelsLoaded p = true) /\
  (detectionInterval p = None <-> detectionActive (state (world p)) = false) /\
  (forall render, detectionInterval p = Some render ->
     isStreamActive render = true /\ knownPersons render <> []).

(** The stored item holds the registry whenever somebody is enrolled. *)
Definition in_sync (p : Page) : Prop :=
  knownPersons (state (world p)) <> [] ->
  localStorage p = Some (JSON_stringify (serializablePersons (knownPersons (state (world p))))).

(** A page before anything was done, with the models loaded or not. *)
Definition freshPage (models : bool) : Page :=
  {| world := {| state := {| isStreamActive := false;
                             knownPersons := [];
                             detectionActive := false;
                             notificationsEnabled := false;
                             lastDetectedPerson := None;
                             confidenceThreshold := Finite 0.6 |};
                 notified := [];
                 console := [] |};
     modelsLoaded := models;
     srcObject := false;
     detectionInterval := None;
     localStorage := None |}.

(** *** Vocabulary of the further properties *)

(** The state a session never writes. *)
Definition settings (s : State) : bool * list Person * bool * bool * number :=
  (isStreamActive s, knownPersons s, detectionActive s, notificationsEnabled s,
   confidenceThreshold s).

(** What a session writes: the last detected person, the notifications
    sent and the console. *)
Definition observable (w : World) : option string * list string * list (string * string) :=
  (lastDetectedPerson (state w), notified w, console w).

(** Every person has as many photos as descriptors, and at least one. *)
Definition aligned (persons : list Person) : Prop :=
  forall person, person ∈ persons ->
    length (descriptors person) = length (photos person) /\ descriptors person <> [].

Definition unique_names (persons : list Person) : Prop :=
  NoDup (List.map name persons).

(** The notifications a run adds, with what is known of each. *)
Definition announced_by (render : State) (before after : list string) : Prop :=
  exists added,
    after = before ++ added /\
    forall n, n ∈ added ->
      n <> "unknown" /\
      notificationsEnabled render = true /\
      Some n <> lastDetectedPerson render /\
      exists person, person ∈ knownPersons render /\ name person = n.

(** Successive uses of the notification switch, each with the answer the
    browser would give if asked. *)
Definition toggleAll (answers : list Permission) (start : Browser * State)
    : Browser * State :=
  fold_left (fun bs answer => toggleNotifications answer (fst bs) (snd bs)) answers start.

(** *** More concrete inputs *)

(** A face whose descriptor has two elements, one more than the enrolled
    ones. *)
Definition face_of_other_length : Float32Array := [Finite 0; Finite 0].

(** The main address is down and every other address answers. *)
Definition main_address_down (net : Net) (url : string) : bool :=
  negb (String.eqb url MODEL_URL).

(** An entry as the app stores it, and a stored array with a [null] after
    it. *)
Definition ann_entry : json :=
  JObject [("name", JString "Ann");
           ("descriptors", JArray [JArray [JNumber (Finite 0)]]);
           ("photos", JArray [JString "ann.jpg"])].

Definition entries_with_null : list json := [ann_entry; JNull].

(** The page once the models are loaded, the camera is started, Ann is
    enrolled and detection runs. *)
Definition detecting_page : Page :=
  run faceapi_euclideanDistance (freshPage true)
    [StartWebcam (Normal tt) true; Enroll "Ann" [Finite 0] "ann.jpg"; StartDetection].

(** ** What a session computes for the faces it sees *)





(** *** Inputs and vocabulary of the revised statements *)


Definition carl : Person :=
  {| name := "Carl"; descriptors := [[Finite 1]]; photos := ["carl.jpg"] |}.

(** The part of the interval callback that follows its [await] (lines
    496-548), for a callback created on [render].  It runs when the
    detector answers, on the page as it is by then: [clearInterval] does
    not cancel a callback that is already waiting. *)
Definition finishCycle
    (euclideanDistance : Float32Array -> Float32Array -> Completion number)
    (render : State) (frame : Frame) (p : Page) : Page :=
  withWorld (detectionTick euclideanDistance render frame) p.

(** Everything enrolled in [before] is enrolled in [after], under the same
    name. *)
Definition extends (before after : list Person) : Prop :=
  forall entry, entry ∈ enrolled before -> entry ∈ enrolled after.

(** ** Order facts about numbers *)

Module NumberFacts.

Import Number.

Ltac order :=
  repeat match goal with
    | H : negb _ = true |- _ => apply negb_true_iff in H
    | H : negb _ = false |- _ => apply negb_false_iff in H
    | H : Qle_bool _ _ = true |- _ => apply Qle_bool_iff in H
    | H : Qle_bool _ _ = false |- _ =>
        apply not_true_iff_false in H; rewrite Qle_bool_iff in H
    | |- negb _ = true => apply negb_true_iff
    | |- negb _ = false => apply negb_false_iff
    | |- Qle_bool _ _ = true => apply Qle_bool_iff
    | |- Qle_bool _ _ = false => apply not_true_iff_false; rewrite Qle_bool_iff
    end;
  try lra.

Lemma ltb_irrefl a : ltb a a = false.
Proof. destruct a; simpl; try reflexivity. order. Qed.

Lemma ltb_trans a b c : ltb a b = true -> ltb b c = true -> ltb a c = true.
Proof. destruct a, b, c; simpl; intros; try discriminate; try reflexivity. order. Qed.

Lemma leb_ltb_trans a b c : leb a b = true -> ltb b c = true -> ltb a c = true.
Proof. destruct a, b, c; simpl; intros; try discriminate; try reflexivity. order. Qed.

Lemma ltb_not_leb a b : ltb a b = true -> leb b a = false.
Proof. destruct a, b; simpl; intros; try discriminate; try reflexivity. order. Qed.

Lemma leb_not_ltb a b : leb a b = true -> ltb b a = false.
Proof. destruct a, b; simpl; intros; try discriminate; try reflexivity. order. Qed.

(** [1 < 1 - t] fails for every threshold that is not negative. *)
Lemma one_not_below_complement t : ltb t zero = false -> ltb one (sub one t) = false.
Proof.
  destruct t; simpl; intros; try discriminate; try reflexivity.
  unfold Qminus in *. order.
Qed.

Lemma positive_not_negative t : ltb zero t = true -> ltb t zero = false.
Proof. destruct t; simpl; intros; try discriminate; try reflexivity. order. Qed.

End NumberFacts.

Create HintDb number_order.
#[export] Hint Resolve NumberFacts.ltb_irrefl NumberFacts.ltb_trans
  NumberFacts.leb_ltb_trans NumberFacts.ltb_not_leb NumberFacts.leb_not_ltb
  : number_order.

(** ** The scan computes the fold *)

Lemma bind_Normal {A B} (c : Completion A) (k : A -> Completion B) a :
  c = Normal a -> bind c k = k a.
Proof. intros ->. reflexivity. Qed.

Lemma mapM_app {A B} (f : A -> Completion B) (xs ys : list A) :
  mapM f (xs ++ ys) =
  (a <- mapM f xs ;; b <- mapM f ys ;; Normal (a ++ b)).
Proof.
  induction xs as [|x xs IH]; simpl.
  - destruct (mapM f ys); reflexivity.
  - destruct (f x) as [y|e]; simpl; [|reflexivity].
    rewrite IH. destruct (mapM f xs); simpl; [|reflexivity].
    destruct (mapM f ys); reflexivity.
Qed.

Lemma mapM_Normal_length {A B} (f : A -> Completion B) (xs : list A) ys :
  mapM f xs = Normal ys -> length ys = length xs.
Proof.
  revert ys. induction xs as [|x xs IH]; simpl; intros ys H.
  - injection H as <-. reflexivity.
  - destruct (f x); simpl in H; [|discriminate].
    destruct (mapM f xs) as [zs|]; simpl in H; [|discriminate].
    injection H as <-. simpl. f_equal. apply IH. reflexivity.
Qed.

Section ScanFacts.

Variable euclideanDistance : Float32Array -> Float32Array -> Completion number.

Lemma scanDescriptors_fold observed personName ds bestMatch :
  scanDescriptors euclideanDistance observed personName ds bestMatch =
  (cs <- mapM (measure euclideanDistance observed) (List.map (pair personName) ds) ;;
   Normal (fold_left pick cs bestMatch)).
Proof.
  revert bestMatch. induction ds as [|d ds IH]; intros bestMatch; simpl.
  - reflexivity.
  - unfold compareDescriptor, measure at 1. simpl.
    destruct (euclideanDistance d observed) as [x|e]; simpl; [|reflexivity].
    rewrite IH.
    destruct (mapM _ _); reflexivity.
Qed.

Lemma scanPersons_fold observed persons bestMatch :
  scanPersons euclideanDistance observed persons bestMatch =
  (cs <- candidates euclideanDistance persons observed ;;
   Normal (fold_left pick cs bestMatch)).
Proof.
  unfold candidates.
  revert bestMatch. induction persons as [|person persons IH]; intros bestMatch; simpl.
  - reflexivity.
  - rewrite scanDescriptors_fold, mapM_app.
    destruct (mapM (measure euclideanDistance observed) (List.map _ (descriptors person))) as [cs1|e];
      simpl; [|reflexivity].
    rewrite IH.
    destruct (mapM (measure euclideanDistance observed) (enrolled persons)) as [cs2|e];
      simpl; [|reflexivity].
    rewrite fold_left_app. reflexivity.
Qed.

(** The scan returns exactly when every distance can be computed, and
    then it is the fold of [pick] over the candidates. *)
Lemma findBestMatch_fold persons observed cs :
  candidates euclideanDistance persons observed = Normal cs ->
  findBestMatch euclideanDistance persons observed =
  Normal (fold_left pick cs unknownMatch).
Proof.
  intros H. unfold findBestMatch. rewrite scanPersons_fold, H. reflexivity.
Qed.

Lemma findBestMatch_throws persons observed e :
  candidates euclideanDistance persons observed = Throw e ->
  findBestMatch euclideanDistance persons observed = Throw e.
Proof.
  intros H. unfold findBestMatch. rewrite scanPersons_fold, H. reflexivity.
Qed.

End ScanFacts.

(** The fold keeps the first least candidate below 1. *)
Lemma fold_pick_best_of (cs : list (string * number)) :
  best_of cs (fold_left pick cs unknownMatch).
Proof.
  induction cs as [|c cs IH] using rev_ind.
  - left. split; [reflexivity|]. intros c Hc. inversion Hc.
  - rewrite fold_left_app. simpl.
    set (r := fold_left pick cs unknownMatch) in *.
    unfold pick at 1. destruct (Number.ltb (snd c) (distance r)) eqn:Hlt.
    + (* the new candidate is strictly better *)
      right. exists (length cs). simpl.
      assert (Hone : Number.ltb (snd c) Number.one = true).
      { destruct IH as [[-> _]|(i & _ & Hr & _)]; [exact Hlt|].
        eauto with number_order. }
      assert (Hprev : forall x, x ∈ cs -> Number.leb (snd x) (snd c) = false).
      { intros x Hx. destruct (Number.leb (snd x) (snd c)) eqn:Hle; [|reflexivity].
        assert (Hxr : Number.ltb (snd x) (distance r) = true)
          by eauto with number_order.
        destruct IH as [[Hr Hall]|(i & _ & _ & Hall & _)].
        - rewrite Hr in Hxr. change (distance unknownMatch) with Number.one in Hxr.
          rewrite (Hall x Hx) in Hxr. discriminate.
        - rewrite (Hall x Hx) in Hxr. discriminate. }
      repeat split.
      * rewrite lookup_app_r, Nat.sub_diag by lia. destruct c; reflexivity.
      * exact Hone.
      * intros x Hx. apply elem_of_app in Hx as [Hx|Hx].
        -- destruct (Number.ltb (snd x) (snd c)) eqn:Hxc; [|reflexivity].
           assert (Number.ltb (snd x) (distance r) = true) by eauto with number_order.
           destruct IH as [[Hr Hall]|(i & _ & _ & Hall & _)].
           ++ rewrite Hr in H. change (distance unknownMatch) with Number.one in H.
              rewrite (Hall x Hx) in H. discriminate.
           ++ rewrite (Hall x Hx) in H. discriminate.
        -- apply list_elem_of_singleton in Hx as ->. apply NumberFacts.ltb_irrefl.
      * intros j x Hj Hx. apply Hprev.
        rewrite lookup_app_l in Hx by exact Hj.
        apply list_elem_of_lookup. eauto.
    + (* the best match so far stays *)
      destruct IH as [[Hr Hall]|(i & Hi & Hr & Hall & Hfirst)].
      * left. split; [exact Hr|].
        intros x Hx. apply elem_of_app in Hx as [Hx|Hx]; [auto|].
        apply list_elem_of_singleton in Hx as ->. rewrite Hr in Hlt. exact Hlt.
      * right. exists i. repeat split; try assumption.
        -- rewrite lookup_app_l; [exact Hi|]. apply lookup_lt_Some in Hi. exact Hi.
        -- intros x Hx. apply elem_of_app in Hx as [Hx|Hx]; [auto|].
           apply list_elem_of_singleton in Hx as ->. exact Hlt.
        -- intros j x Hj Hx. apply (Hfirst j x Hj).
           rewrite lookup_app_l in Hx; [exact Hx|].
           apply lookup_lt_Some in Hi. lia.
Qed.

(** ** The match decision *)

(** The start value of the scan is never a match at a threshold that is
    not negative, in particular at none in (0,1). *)
Lemma unknownMatch_unmatched t :
  Number.ltb t Number.zero = false -> isMatch unknownMatch t = false.
Proof. apply NumberFacts.one_not_below_complement. Qed.

Lemma in_unit_interval_not_negative t :
  in_unit_interval t -> Number.ltb t Number.zero = false.
Proof. intros [H _]. apply NumberFacts.positive_not_negative, H. Qed.

(** ** The debounce *)

Lemma handleMatch_accepted render bestMatch w :
  isMatch bestMatch (confidenceThreshold render) = true ->
  label bestMatch <> "unknown" ->
  notificationsEnabled render = true ->
  handleMatch render bestMatch w =
  if bool_decide (Some (label bestMatch) <> lastDetectedPerson render)
  then sendNotification (label bestMatch)
         (setLastDetectedPerson (Some (label bestMatch)) w)
  else w.
Proof.
  intros Hm Hn He. unfold handleMatch. rewrite Hm, He.
  apply String.eqb_neq in Hn. rewrite Hn. reflexivity.
Qed.

Lemma handleMatch_unmatched render bestMatch w :
  isMatch bestMatch (confidenceThreshold render) = false ->
  handleMatch render bestMatch w = setLastDetectedPerson None w.
Proof. intros Hm. unfold handleMatch. rewrite Hm. reflexivity. Qed.

(** A candidate labelled "unknown" is never announced. *)
Lemma handleMatch_unknown render bestMatch w :
  label bestMatch = "unknown" ->
  notified (handleMatch render bestMatch w) = notified w.
Proof.
  intros Hl. unfold handleMatch. rewrite Hl. simpl.
  rewrite andb_false_r. simpl.
  destruct (negb _); reflexivity.
Qed.

Section ControllerFacts.

Variable euclideanDistance : Float32Array -> Float32Array -> Completion number.

(** A cycle without faces changes nothing. *)
Lemma detectionTick_no_faces render w :
  detectionTick euclideanDistance render (Faces []) w = w.
Proof. reflexivity. Qed.

(** The comparison of line 537 reads the snapshot, which no cycle
    changes: while the same accepted face stays in view, every cycle
    announces it again. *)
Lemma runCycles_repeat render face bestMatch n w :
  findBestMatch euclideanDistance (knownPersons render) face = Normal bestMatch ->
  isMatch bestMatch (confidenceThreshold render) = true ->
  label bestMatch <> "unknown" ->
  notificationsEnabled render = true ->
  Some (label bestMatch) <> lastDetectedPerson render ->
  notified (runCycles euclideanDistance render (repeat (Faces [face]) n) w) =
  notified w ++ repeat (label bestMatch) n.
Proof.
  intros Hbest Hm Hn He Hlast. revert w.
  induction n as [|n IH]; intros w; simpl.
  - rewrite app_nil_r. reflexivity.
  - unfold runCycles in *. rewrite IH. simpl. rewrite Hbest.
    rewrite handleMatch_accepted by assumption.
    rewrite bool_decide_true by assumption. simpl.
    rewrite <- app_assoc. reflexivity.
Qed.

End ControllerFacts.

(** ** The claims about matching, decision and debounce *)

(** C1 (the code departs from it).  The claim: three cycles that each
    match Ann announce her once, and an accepted match equal to the last
    announced identity is silent.  The interval callback compares with the
    [lastDetectedPerson] of the render that started the session, so with
    Ann enrolled, notifications on and nobody announced at the start, three
    cycles that each see Ann call [sendNotification("Ann")] three times. *)
Theorem C1_three_matches_notify_three_times :
  notified (session faceapi_euclideanDistance ready_world
              [Faces [face_near_ann]; Faces [face_near_ann]; Faces [face_near_ann]])
  = ["Ann"; "Ann"; "Ann"].
Proof. vm_compute. reflexivity. Qed.

(** The other sequence of the claim behaves as it says: two
    announcements. *)
Example match_none_match_notifies_twice :
  notified (session faceapi_euclideanDistance ready_world
              [Faces [face_near_ann]; Faces []; Faces [face_near_ann]])
  = ["Ann"; "Ann"].
Proof. vm_compute. reflexivity. Qed.




(** C3 as stated fails: Ann's only descriptor is at distance 1.5 from the
    face, so 1.5 is the least distance seen and Ann its owner, yet the scan
    returns "unknown" at distance 1. *)
Lemma C3_counterexample :
  candidates faceapi_euclideanDistance [ann] face_far = Normal [("Ann", Finite (3 # 2))] /\
  findBestMatch faceapi_euclideanDistance [ann] face_far
    = Normal {| label := "unknown"; distance := Finite 1 |}.
Proof. split; vm_compute; reflexivity. Qed.

(** C3 (amended).  For every observed descriptor and registry whose
    distances can all be computed, the scan visits every descriptor of
    every identity and returns the least distance below 1 with the name of
    its owner, the first in scan order among equal least distances; when no
    distance is below 1 it returns "unknown" at distance 1. *)
Theorem C3_first_least_distance_below_one
    (euclideanDistance : Float32Array -> Float32Array -> Completion number)
    (persons : list Person) (observed : Float32Array) (cs : list (string * number)) :
  candidates euclideanDistance persons observed = Normal cs ->
  exists r,
    findBestMatch euclideanDistance persons observed = Normal r /\
    ((r = {| label := "unknown"; distance := Finite 1 |} /\
      forall c, c ∈ cs -> Number.ltb (snd c) (Finite 1) = false)
     \/
     (exists i,
        cs !! i = Some (label r, distance r) /\
        Number.ltb (distance r) (Finite 1) = true /\
        (forall c, c ∈ cs -> Number.ltb (snd c) (distance r) = false) /\
        (forall j c, j < i -> cs !! j = Some c ->
                     Number.leb (snd c) (distance r) = false))).
Proof.
  intros Hcs. exists (fold_left pick cs unknownMatch). split.
  - apply findBestMatch_fold, Hcs.
  - apply fold_pick_best_of.
Qed.

(** Ann and Bob are both at distance 0.25 from the face (1/4 and 2/8):
    Ann, enrolled first, is the one returned. *)
Lemma C3_first_least_distance_below_one_witness :
  candidates faceapi_euclideanDistance [ann; bob] face_near_ann
    = Normal [("Ann", Finite (1 # 4)); ("Bob", Finite (2 # 8))] /\
  exists r,
    findBestMatch faceapi_euclideanDistance [ann; bob] face_near_ann = Normal r /\
    ((r = {| label := "unknown"; distance := Finite 1 |} /\
      forall c, c ∈ [("Ann", Finite (1 # 4)); ("Bob", Finite (2 # 8))] ->
                Number.ltb (snd c) (Finite 1) = false)
     \/
     (exists i,
        [("Ann", Finite (1 # 4)); ("Bob", Finite (2 # 8))] !! i
          = Some (label r, distance r) /\
        Number.ltb (distance r) (Finite 1) = true /\
        (forall c, c ∈ [("Ann", Finite (1 # 4)); ("Bob", Finite (2 # 8))] ->
                   Number.ltb (snd c) (distance r) = false) /\
        (forall j c, j < i ->
                     [("Ann", Finite (1 # 4)); ("Bob", Finite (2 # 8))] !! j = Some c ->
                     Number.leb (snd c) (distance r) = false))).
Proof.
  assert (H : candidates faceapi_euclideanDistance [ann; bob] face_near_ann
              = Normal [("Ann", Finite (1 # 4)); ("Bob", Finite (2 # 8))])
    by (vm_compute; reflexivity).
  split; [exact H|].
  exact (C3_first_least_distance_below_one
           faceapi_euclideanDistance [ann; bob] face_near_ann _ H).
Defined.

Example tie_goes_to_the_first_enrolled :
  findBestMatch faceapi_euclideanDistance [ann; bob] face_near_ann
  = Normal {| label := "Ann"; distance := Finite (1 # 4) |}.
Proof. vm_compute. reflexivity. Qed.

(** C4 as stated fails: the decision looks at the distance alone.  With a
    person enrolled under the name "unknown", the candidate of a face at
    distance 0.25 carries the label "unknown" and is a match at threshold
    0.6. *)
Lemma C4_counterexample :
  findBestMatch faceapi_euclideanDistance [person_named_unknown] face_near_ann
    = Normal {| label := "unknown"; distance := Finite (1 # 4) |} /\
  isMatch {| label := "unknown"; distance := Finite (1 # 4) |} (Finite 0.6) = true.
Proof. split; vm_compute; reflexivity. Qed.

(** C4 (amended).  For every candidate and threshold, [isMatch] is
    [distance < 1 - threshold]; a candidate at distance 0.3 is matched at
    threshold 0.6 and unmatched at 0.8; a candidate labelled "unknown" is
    never announced, whatever its distance; and the candidate the scan
    starts from, "unknown" at distance 1, is unmatched at every threshold
    in (0,1). *)
Theorem C4_decision_policy (bestMatch : BestMatch) (t : number)
    (render : State) (w : World) :
  in_unit_interval t ->
  isMatch bestMatch t = Number.ltb (distance bestMatch) (Number.sub (Finite 1) t) /\
  isMatch {| label := "Ann"; distance := Finite 0.3 |} (Finite 0.6) = true /\
  isMatch {| label := "Ann"; distance := Finite 0.3 |} (Finite 0.8) = false /\
  (label bestMatch = "unknown" ->
   notified (handleMatch render bestMatch w) = notified w) /\
  isMatch {| label := "unknown"; distance := Finite 1 |} t = false.
Proof.
  intros Ht. repeat split.
  - apply handleMatch_unknown.
  - apply unknownMatch_unmatched, in_unit_interval_not_negative, Ht.
Qed.

Lemma C4_decision_policy_witness :
  in_unit_interval (Finite 0.6) /\
  notified (handleMatch (state ready_world)
              {| label := "unknown"; distance := Finite (1 # 4) |} ready_world) = [] /\
  isMatch {| label := "unknown"; distance := Finite 1 |} (Finite 0.6) = false.
Proof.
  assert (H : in_unit_interval (Finite 0.6)) by (split; reflexivity).
  destruct (C4_decision_policy
              {| label := "unknown"; distance := Finite (1 # 4) |} (Finite 0.6)
              (state ready_world) ready_world H) as (_ & _ & _ & Hsilent & Hstart).
  exact (conj H (conj (Hsilent eq_refl) Hstart)).
Defined.

(** C5 (the code departs from it).  The claim: a cycle with no face resets
    [lastDetectedPerson] and announces nothing.  The callback returns at
    line 501 before anything is reset: after a cycle that matched Ann, a
    cycle without faces leaves [lastDetectedPerson] at "Ann" (and announces
    nothing). *)
Theorem C5_no_faces_keeps_last_detected :
  let w := session faceapi_euclideanDistance ready_world
             [Faces [face_near_ann]; Faces []] in
  lastDetectedPerson (state w) = Some "Ann" /\ notified w = ["Ann"].
Proof. vm_compute. split; reflexivity. Qed.

(** C10.  For every observed descriptor and registry, a candidate the
    scan returns under a label other than "unknown" has a distance below 1,
    and a returned distance of 1 or more belongs to the start value
    [{label: "unknown", distance: 1}], never to an enrolled descriptor;
    when every enrolled descriptor is at distance 1 or more the scan
    returns that start value; and the start value is unmatched at every
    threshold in (0,1). *)
Theorem C10_distance_capped_at_one
    (euclideanDistance : Float32Array -> Float32Array -> Completion number)
    (persons : list Person) (observed : Float32Array) (t : number) :
  in_unit_interval t ->
  (forall r,
     findBestMatch euclideanDistance persons observed = Normal r ->
     (label r <> "unknown" -> Number.ltb (distance r) (Finite 1) = true) /\
     (Number.leb (Finite 1) (distance r) = true ->
      r = {| label := "unknown"; distance := Finite 1 |})) /\
  (forall cs,
     candidates euclideanDistance persons observed = Normal cs ->
     (forall c, c ∈ cs -> Number.leb (Finite 1) (snd c) = true) ->
     findBestMatch euclideanDistance persons observed
       = Normal {| label := "unknown"; distance := Finite 1 |}) /\
  isMatch {| label := "unknown"; distance := Finite 1 |} t = false.
Proof.
  intros Ht. split; [|split].
  - intros r Hr.
    destruct (candidates euclideanDistance persons observed) as [cs|e] eqn:Hcs.
    + rewrite (findBestMatch_fold _ _ _ _ Hcs) in Hr. injection Hr as <-.
      destruct (fold_pick_best_of cs) as [[Hstart _]|(i & _ & Hlt & _)]; split.
      * intros Hl. rewrite Hstart in Hl. contradiction Hl. reflexivity.
      * intros _. exact Hstart.
      * intros _. exact Hlt.
      * intros Hge. apply NumberFacts.leb_not_ltb in Hge.
        change (Finite 1) with Number.one in Hge. congruence.
    + rewrite (findBestMatch_throws _ _ _ _ Hcs) in Hr. discriminate.
  - intros cs Hcs Hall. rewrite (findBestMatch_fold _ _ _ _ Hcs). f_equal.
    destruct (fold_pick_best_of cs) as [[Hstart _]|(i & Hi & Hlt & _)]; [exact Hstart|].
    assert (Hin : (label (fold_left pick cs unknownMatch),
                   distance (fold_left pick cs unknownMatch)) ∈ cs)
      by (apply list_elem_of_lookup; eauto).
    apply Hall, NumberFacts.leb_not_ltb in Hin. simpl in Hin.
    change (Finite 1) with Number.one in Hin. congruence.
  - apply unknownMatch_unmatched, in_unit_interval_not_negative, Ht.
Qed.

(** Ann's descriptor is at distance 1.5 from the face. *)
Lemma C10_distance_capped_at_one_witness :
  in_unit_interval (Finite 0.6) /\
  candidates faceapi_euclideanDistance [ann] face_far = Normal [("Ann", Finite (3 # 2))] /\
  findBestMatch faceapi_euclideanDistance [ann] face_far
    = Normal {| label := "unknown"; distance := Finite 1 |} /\
  isMatch {| label := "unknown"; distance := Finite 1 |} (Finite 0.6) = false.
Proof.
  assert (Ht : in_unit_interval (Finite 0.6)) by (split; reflexivity).
  assert (Hcs : candidates faceapi_euclideanDistance [ann] face_far
                = Normal [("Ann", Finite (3 # 2))]) by (vm_compute; reflexivity).
  destruct (C10_distance_capped_at_one
              faceapi_euclideanDistance [ann] face_far (Finite 0.6) Ht)
    as (_ & Hall & Hun).
  split; [exact Ht|]. split; [exact Hcs|]. split; [|exact Hun].
  apply (Hall _ Hcs).
  intros c Hc. apply list_elem_of_singleton in Hc as ->. reflexivity.
Defined.

(** ** Enrollment *)

Lemma findIndex_Some newPersonName persons i :
  findIndex newPersonName persons = Some i ->
  exists person,
    persons !! i = Some person /\ name person = newPersonName /\
    forall j other, j < i -> persons !! j = Some other -> name other <> newPersonName.
Proof.
  unfold findIndex. intros H.
  destruct (list_find _ persons) as [[i' person]|] eqn:Hfind; [|discriminate].
  injection H as ->. apply list_find_Some in Hfind as (Hi & Hn & Hfirst).
  exists person. repeat split; try assumption.
  intros j other Hj Hother. exact (Hfirst j other Hother Hj).
Qed.

Lemma findIndex_None newPersonName persons :
  findIndex newPersonName persons = None <->
  forall other, other ∈ persons -> name other <> newPersonName.
Proof.
  unfold findIndex. destruct (list_find _ persons) as [[i person]|] eqn:Hfind; simpl.
  - split; [discriminate|]. intros Hnone.
    apply list_find_Some in Hfind as (Hi & Hn & _).
    assert (Hin : person ∈ persons) by (apply list_elem_of_lookup; eauto).
    contradiction (Hnone person Hin Hn).
  - split; [|reflexivity]. intros _.
    apply list_find_None in Hfind. rewrite Forall_forall in Hfind. exact Hfind.
Qed.

Lemma findIndex_new_last newPersonName persons person :
  (forall other, other ∈ persons -> name other <> newPersonName) ->
  name person = newPersonName ->
  findIndex newPersonName (persons ++ [person]) = Some (length persons).
Proof.
  intros Hnone Hn. unfold findIndex.
  assert (H : list_find (fun p => name p = newPersonName) (persons ++ [person])
              = Some (length persons, person)).
  { apply list_find_Some. repeat split.
    - rewrite lookup_app_r, Nat.sub_diag by lia. reflexivity.
    - exact Hn.
    - intros j other Hother Hj. rewrite lookup_app_l in Hother by exact Hj.
      apply Hnone, list_elem_of_lookup. eauto. }
  rewrite H. reflexivity.
Qed.

Lemma filter_name_none newPersonName (persons : list Person) :
  (forall other, other ∈ persons -> name other <> newPersonName) ->
  filter (fun p => name p = newPersonName) persons = [].
Proof.
  induction persons as [|p persons IH]; intros Hnone; [reflexivity|].
  rewrite filter_cons_False.
  - apply IH. intros other Hother. apply Hnone. right. exact Hother.
  - apply Hnone. left.
Qed.

(** With one detected face, both handlers enroll through the same
    update. *)
Lemma handlers_enroll persons n d photo :
  processUploadedImage persons n photo [d] = Some (enrollUpdater persons n d photo) /\
  captureFace persons n photo [d] = Some (enrollUpdater persons n d photo) /\
  enrollUpdater persons n d photo persons = enroll n d photo persons.
Proof. repeat split. Qed.

(** What enrollment does when every enrollment is applied on an up-to-date
    render.  Enrolling under a name some identity has appends the
    descriptor and the photo to the sequences of the first identity of that
    name and changes nothing else; enrolling under a name no identity has
    adds, at the end, an identity with one descriptor and one photo; and
    two such enrollments in a row under a name the registry did not have
    leave one identity of that name, with both descriptors and both photos
    in enrollment order. *)
Lemma enroll_appends_on_current_render (persons : list Person) (n : string)
    (e1 e2 : Float32Array) (p1 p2 : string) :
  ((exists existing, existing ∈ persons /\ name existing = n) ->
   exists i person,
     persons !! i = Some person /\ name person = n /\
     (forall j other, j < i -> persons !! j = Some other -> name other <> n) /\
     enroll n e1 p1 persons =
     Normal (<[i := {| name := n;
                       descriptors := descriptors person ++ [e1];
                       photos := photos person ++ [p1] |}]> persons)) /\
  ((forall other, other ∈ persons -> name other <> n) ->
   enroll n e1 p1 persons =
   Normal (persons ++ [{| name := n; descriptors := [e1]; photos := [p1] |}]) /\
   (registry <- enroll n e1 p1 persons ;; enroll n e2 p2 registry) =
   Normal (persons ++ [{| name := n; descriptors := [e1; e2]; photos := [p1; p2] |}]) /\
   filter (fun p => name p = n)
          (persons ++ [{| name := n; descriptors := [e1; e2]; photos := [p1; p2] |}])
   = [{| name := n; descriptors := [e1; e2]; photos := [p1; p2] |}]).
Proof.
  split.
  - intros (existing & Hin & Hn).
    destruct (findIndex n persons) as [i|] eqn:Hfind.
    + destruct (findIndex_Some _ _ _ Hfind) as (person & Hi & Hname & Hfirst).
      exists i, person. repeat split; try assumption.
      unfold enroll, enrollUpdater. rewrite Hfind, Hi, Hname. reflexivity.
    + contradiction (proj1 (findIndex_None n persons) Hfind existing Hin Hn).
  - intros Hnone.
    assert (Hfirst : enroll n e1 p1 persons =
              Normal (persons ++ [{| name := n; descriptors := [e1]; photos := [p1] |}])).
    { unfold enroll, enrollUpdater.
      rewrite (proj2 (findIndex_None n persons) Hnone). reflexivity. }
    repeat split.
    + exact Hfirst.
    + rewrite Hfirst. simpl. unfold enroll, enrollUpdater.
      rewrite (findIndex_new_last n persons
                 {| name := n; descriptors := [e1]; photos := [p1] |} Hnone eq_refl).
      rewrite lookup_app_r, Nat.sub_diag by lia. simpl.
      rewrite insert_app_r_alt, Nat.sub_diag by lia. reflexivity.
    + rewrite filter_app, (filter_name_none n persons Hnone).
      rewrite filter_cons_True by reflexivity. reflexivity.
Qed.

Lemma enroll_appends_on_current_render_witness :
  (exists i person,
     [bob; ann] !! i = Some person /\ name person = "Ann" /\
     (forall j other, j < i -> [bob; ann] !! j = Some other -> name other <> "Ann") /\
     enroll "Ann" [Finite 1] "ann2.jpg" [bob; ann] =
     Normal (<[i := {| name := "Ann";
                       descriptors := descriptors person ++ [[Finite 1]];
                       photos := photos person ++ ["ann2.jpg"] |}]> [bob; ann])) /\
  (registry <- enroll "Ann" [Finite 0] "ann.jpg" [bob] ;;
   enroll "Ann" [Finite 1] "ann2.jpg" registry) =
  Normal [bob; {| name := "Ann";
                  descriptors := [[Finite 0]; [Finite 1]];
                  photos := ["ann.jpg"; "ann2.jpg"] |}].
Proof.
  split.
  - apply (proj1 (enroll_appends_on_current_render [bob; ann] "Ann" [Finite 1] [Finite 1]
                    "ann2.jpg" "ann2.jpg")).
    exists ann. split; [right; left | reflexivity].
  - apply (proj2 (enroll_appends_on_current_render [bob] "Ann" [Finite 0] [Finite 1]
                    "ann.jpg" "ann2.jpg")).
    intros other Hother. apply list_elem_of_singleton in Hother as ->. discriminate.
Defined.

Example enroll_existing_appends_in_place :
  enroll "Ann" [Finite 1] "ann2.jpg" [ann; bob] =
  Normal [{| name := "Ann";
             descriptors := [[Finite 0]; [Finite 1]];
             photos := ["ann.jpg"; "ann2.jpg"] |}; bob].
Proof. vm_compute. reflexivity. Qed.

(** C6 (the code departs from it).  The claim: after two enrollments of
    "Ann" the registry holds exactly one identity "Ann" with both
    descriptors, and an enrollment under an existing name appends to that
    identity.  Both handlers look the name up, after their [await], in the
    [knownPersons] of the render they were started in (lines 294, 401) and
    apply the outcome to [prev].  Two captures started from one render of
    an empty registry both find no "Ann" and both append: two identities
    "Ann" with one descriptor each.  And an enrollment of "Ann" started on
    [bob; ann; carl] and applied after Bob was deleted writes at Ann's old
    position, which is Carl's by then. *)
Theorem C6_stale_render_breaks_enrollment :
  match captureFace [] "Ann" "ann.jpg" [[Finite 0]],
        captureFace [] "Ann" "ann2.jpg" [[Finite 1]] with
  | Some first_capture, Some second_capture =>
      registry <- first_capture [] ;; second_capture registry
  | _, _ => Throw "not enrolled"
  end
  = Normal [{| name := "Ann"; descriptors := [[Finite 0]]; photos := ["ann.jpg"] |};
            {| name := "Ann"; descriptors := [[Finite 1]]; photos := ["ann2.jpg"] |}]
  /\
  match processUploadedImage [bob; ann; carl] "Ann" "ann2.jpg" [[Finite 1]] with
  | Some upload => upload (deletePerson 0 [bob; ann; carl])
  | None => Throw "not enrolled"
  end
  = Normal [ann;
            {| name := "Carl"; descriptors := [[Finite 1]; [Finite 1]];
               photos := ["carl.jpg"; "ann2.jpg"] |}].
Proof. split; vm_compute; reflexivity. Qed.

(** ** The codec *)

Lemma map_fixed {A} (f : A -> A) (l : list A) :
  (forall x, x ∈ l -> f x = x) -> List.map f l = l.
Proof.
  intros H. rewrite <- (List.map_id l) at 2.
  apply List.map_ext_in. intros x Hx. apply H, list_elem_of_In, Hx.
Qed.

Lemma toJSON_numbers (desc : Float32Array) :
  (forall x, x ∈ desc -> Number.isFinite x = true) ->
  List.map toJSON (List.map JNumber desc) = List.map JNumber desc.
Proof.
  intros H. rewrite List.map_map. apply List.map_ext_in.
  intros x Hx. simpl. rewrite (H x); [reflexivity|]. apply list_elem_of_In, Hx.
Qed.

Lemma toJSON_strings (l : list string) :
  List.map toJSON (List.map JString l) = List.map JString l.
Proof. rewrite List.map_map. reflexivity. Qed.

Lemma toJSON_serializablePersons persons :
  storable persons -> toJSON (serializablePersons persons) = serializablePersons persons.
Proof.
  intros Hst. unfold serializablePersons. simpl. f_equal.
  rewrite List.map_map. apply List.map_ext_in. intros person Hperson.
  apply list_elem_of_In in Hperson. simpl.
  rewrite toJSON_strings, List.map_map.
  assert (Hds : List.map (fun desc => toJSON (JArray (List.map JNumber desc)))
                         (descriptors person)
                = List.map (fun desc => JArray (List.map JNumber desc))
                           (descriptors person)).
  { apply List.map_ext_in. intros desc Hdesc.
    apply list_elem_of_In in Hdesc. simpl. f_equal.
    apply toJSON_numbers. intros x Hx. apply (Hst person desc x); assumption. }
  rewrite Hds. reflexivity.
Qed.

Lemma rounded_storable persons :
  storable persons -> List.map rounded persons = persons.
Proof.
  intros Hst. apply map_fixed. intros [n ds ps] Hperson. unfold rounded. simpl.
  f_equal. apply map_fixed. intros desc Hdesc.
  apply map_fixed. intros x Hx.
  apply (Hst _ desc x Hperson); assumption.
Qed.

Section RestoreFacts.

Variable ToNumber_other : json -> Completion number.

Lemma new_Float32Array_numbers (desc : Float32Array) :
  new_Float32Array ToNumber_other (List.map JNumber desc)
  = Normal (List.map Number.fround desc).
Proof.
  unfold new_Float32Array. induction desc as [|x desc IH]; simpl.
  - reflexivity.
  - rewrite IH. reflexivity.
Qed.

Lemma restore_descriptors (ds : list Float32Array) :
  mapM (fun desc => values <- Object_values desc ;;
                    new_Float32Array ToNumber_other values)
       (List.map (fun desc => JArray (List.map JNumber desc)) ds)
  = Normal (List.map (List.map Number.fround) ds).
Proof.
  induction ds as [|desc ds IH]; simpl.
  - reflexivity.
  - rewrite new_Float32Array_numbers. simpl. rewrite IH. reflexivity.
Qed.

(** A value of the shape [serializablePersons] builds is restored entry
    by entry, each element rounded to binary32; no length is looked
    at. *)
Lemma restorePersons_serializable persons :
  restorePersons ToNumber_other (serializablePersons persons)
  = Normal (List.map (fun person => untyped (rounded person)) persons).
Proof.
  unfold restorePersons, serializablePersons, array_map.
  induction persons as [|person persons IH]; simpl.
  - reflexivity.
  - rewrite restore_descriptors. simpl. rewrite IH. reflexivity.
Qed.

Lemma loadSavedPersons_throws text e :
  truthy (Some text) = true ->
  (parsedPersons <- JSON_parse text ;; restorePersons ToNumber_other parsedPersons)
    = Throw e ->
  loadSavedPersons ToNumber_other (Some text)
    = ([], [("Error loading saved persons:", e)]).
Proof. intros Ht He. unfold loadSavedPersons. rewrite Ht, He. reflexivity. Qed.

Lemma loadSavedPersons_serializable persons :
  loadSavedPersons ToNumber_other (Some (JSONText (serializablePersons persons)))
  = (List.map (fun person => untyped (rounded person)) persons, []).
Proof.
  unfold loadSavedPersons. simpl. rewrite restorePersons_serializable. reflexivity.
Qed.

End RestoreFacts.

(** ** Write-through *)

Lemma commit_persists_nonempty update persons person rest item :
  update persons = Normal (person :: rest) ->
  commit update (persons, item) =
  Normal (person :: rest,
          Some (JSON_stringify (serializablePersons (person :: rest)))).
Proof. intros H. unfold commit. simpl. rewrite H. reflexivity. Qed.

Lemma commit_skips_empty update persons item :
  update persons = Normal [] ->
  commit update (persons, item) = Normal ([], item).
Proof. intros H. unfold commit. simpl. rewrite H. reflexivity. Qed.

(** An enrollment never leaves the registry empty, so it always reaches
    the stored item. *)
Lemma enroll_written_through n d p persons registry item :
  enroll n d p persons = Normal registry ->
  commit (enroll n d p) (persons, item) =
  Normal (registry, Some (JSON_stringify (serializablePersons registry))).
Proof.
  intros H. destruct registry as [|person rest].
  - exfalso. unfold enroll, enrollUpdater in H.
    destruct (findIndex n persons) as [i|].
    + destruct (persons !! i) eqn:Hi; [|discriminate].
      injection H as H. apply (f_equal length) in H.
      rewrite length_insert in H. apply lookup_lt_Some in Hi. simpl in H. lia.
    + injection H as H. apply (f_equal length) in H.
      rewrite length_app in H. simpl in H. lia.
  - apply commit_persists_nonempty, H.
Qed.

(** ** The claims about persistence *)

(** C7 as stated fails: a NaN in a descriptor is written as [null] and
    comes back as 0. *)
Lemma C7_counterexample :
  loadSavedPersons ToNumber_not_numeric
    (Some (JSON_stringify (serializablePersons [ann_with_nan])))
  = ([{| restored_name := Some (JString "Ann");
         restored_descriptors := [[Finite 0]];
         restored_photos := Some (JArray [JString "ann.jpg"]) |}], []) /\
  descriptors ann_with_nan = [[NaN]].
Proof. split; vm_compute; reflexivity. Qed.

(** C7 (amended).  For a registry whose descriptor elements are all finite
    numbers, serializing and then deserializing gives the registry back:
    the same names in the same order, the same descriptors element for
    element, the same photos. *)
Theorem C7_round_trip_of_finite_registries
    (ToNumber_other : json -> Completion number) (persons : list Person) :
  storable persons ->
  loadSavedPersons ToNumber_other (Some (JSON_stringify (serializablePersons persons)))
  = (List.map untyped persons, []).
Proof.
  intros Hst. unfold JSON_stringify.
  rewrite (toJSON_serializablePersons persons Hst).
  rewrite loadSavedPersons_serializable.
  rewrite <- (List.map_map rounded untyped), (rounded_storable persons Hst).
  reflexivity.
Qed.

Lemma storable_ann_bob : storable [ann; bob].
Proof.
  intros person desc x Hperson Hdesc Hx.
  repeat match goal with
    | H : _ ∈ _ :: _ |- _ => apply elem_of_cons in H as [->|H]
    | H : _ ∈ [] |- _ => inversion H
    | H : _ ∈ descriptors _ |- _ => simpl in H
    end; split; vm_compute; reflexivity.
Defined.

Lemma C7_round_trip_of_finite_registries_witness :
  storable [ann; bob] /\
  loadSavedPersons ToNumber_not_numeric
    (Some (JSON_stringify (serializablePersons [ann; bob])))
  = (List.map untyped [ann; bob], []).
Proof.
  split; [exact storable_ann_bob|].
  exact (C7_round_trip_of_finite_registries ToNumber_not_numeric [ann; bob]
           storable_ann_bob).
Defined.

(** C8 as stated fails: an item whose descriptors have lengths 2 and 3 and
    that has two descriptors for no photo is restored without any error. *)
Lemma C8_counterexample :
  loadSavedPersons ToNumber_not_numeric (Some ragged_item)
  = ([{| restored_name := Some (JString "Ann");
         restored_descriptors := [[Finite 1; Finite 2]; [Finite 1; Finite 2; Finite 3]];
         restored_photos := Some (JArray []) |}], []).
Proof. vm_compute. reflexivity. Qed.

(** C8 (amended).  Deserializing checks no length: a stored item of the
    serialized shape is restored entry by entry whatever the lengths of its
    descriptors and however many photos it has.  When parsing or restoring
    the stored item throws, the exception is caught, the registry stays
    empty and the error is written with [console.error]. *)
Theorem C8_restore_checks_no_length_and_logs_failure
    (ToNumber_other : json -> Completion number)
    (persons : list Person) (text : blob) (e : string) :
  loadSavedPersons ToNumber_other (Some (JSONText (serializablePersons persons)))
    = (List.map (fun person => untyped (rounded person)) persons, []) /\
  (truthy (Some text) = true ->
   (parsedPersons <- JSON_parse text ;; restorePersons ToNumber_other parsedPersons)
     = Throw e ->
   loadSavedPersons ToNumber_other (Some text)
     = ([], [("Error loading saved persons:", e)])).
Proof.
  split.
  - apply loadSavedPersons_serializable.
  - apply loadSavedPersons_throws.
Qed.

Lemma C8_restore_checks_no_length_and_logs_failure_witness :
  truthy (Some (NotJSON "{")) = true /\
  loadSavedPersons ToNumber_not_numeric (Some (NotJSON "{"))
    = ([], [("Error loading saved persons:", "SyntaxError")]).
Proof.
  split; [reflexivity|].
  exact (proj2 (C8_restore_checks_no_length_and_logs_failure
                  ToNumber_not_numeric [] (NotJSON "{") "SyntaxError")
               eq_refl eq_refl).
Defined.

(** C9 (the code departs from it).  The claim: after every mutation the
    stored item holds the serialized current registry.  The effect writes
    only a registry that is not empty: deleting the only person leaves the
    item as it was, and the next load brings the deleted person back. *)
Theorem C9_deleting_the_last_person_is_not_persisted :
  commit (fun prev => Normal (deletePerson 0 prev))
         ([ann], Some (JSON_stringify (serializablePersons [ann])))
  = Normal ([], Some (JSON_stringify (serializablePersons [ann]))) /\
  JSON_stringify (serializablePersons [ann]) <> JSON_stringify (serializablePersons []) /\
  loadSavedPersons ToNumber_not_numeric
    (Some (JSON_stringify (serializablePersons [ann])))
  = ([untyped ann], []).
Proof. repeat split; try (vm_compute; reflexivity). vm_compute. discriminate. Qed.

(** * Further properties of the code *)

(** ** More order facts *)

Module NumberOrder.

Import Number NumberFacts.

Lemma ltb_leb a b : ltb a b = true -> leb a b = true.
Proof. destruct a, b; simpl; intros; try discriminate; try reflexivity; order. Qed.

Lemma leb_trans a b c : leb a b = true -> leb b c = true -> leb a c = true.
Proof. destruct a, b, c; simpl; intros; try discriminate; try reflexivity; order. Qed.

(** A number that is below something is not NaN. *)
Lemma leb_refl_l a b : leb a b = true -> leb a a = true.
Proof. destruct a, b; simpl; intros; try discriminate; try reflexivity; order. Qed.

Lemma ltb_refl_l a b : ltb a b = true -> leb a a = true.
Proof. destruct a, b; simpl; intros; try discriminate; try reflexivity; order. Qed.

(** Lowering the threshold raises the bar [1 - t] a distance must pass. *)
Lemma complement_antitone d t t' :
  ltb d (sub one t) = true -> leb t' t = true -> ltb d (sub one t') = true.
Proof.
  destruct d, t, t'; simpl; intros; try discriminate; try reflexivity.
  all: unfold Qminus in *; order.
Qed.

Lemma round_nonnegative x : (0 <= x)%Q -> (0 <= Qfloor (x + (1 # 2)))%Z.
Proof.
  intros Hx. change 0%Z with (Qfloor 0). apply Qfloor_resp_le. lra.
Qed.

End NumberOrder.

(** ** What the scan returns *)

Lemma mapM_Normal_elem {A B} (f : A -> Completion B) (xs : list A) ys y :
  mapM f xs = Normal ys -> y ∈ ys -> exists x, x ∈ xs /\ f x = Normal y.
Proof.
  revert ys. induction xs as [|x xs IH]; simpl; intros ys H Hy.
  - injection H as <-. inversion Hy.
  - destruct (f x) as [z|] eqn:Hz; simpl in H; [|discriminate].
    destruct (mapM f xs) as [zs|]; simpl in H; [|discriminate].
    injection H as <-. apply elem_of_cons in Hy as [->|Hy].
    + exists x. split; [left|exact Hz].
    + destruct (IH zs eq_refl Hy) as (x' & Hx' & Hfx').
      exists x'. split; [right; exact Hx'|exact Hfx'].
Qed.

Lemma mapM_Normal_iff {A B} (f : A -> Completion B) (xs : list A) :
  (exists ys, mapM f xs = Normal ys) <-> (forall x, x ∈ xs -> exists y, f x = Normal y).
Proof.
  induction xs as [|x xs IH]; simpl.
  - split; [intros _ x Hx; inversion Hx | intros _; eauto].
  - split.
    + intros (ys & H) x' Hx'.
      destruct (f x) as [z|] eqn:Hz; simpl in H; [|discriminate].
      destruct (mapM f xs) as [zs|]; simpl in H; [|discriminate].
      apply elem_of_cons in Hx' as [->|Hx']; [eauto|].
      apply (proj1 IH); eauto.
    + intros Hall.
      destruct (Hall x) as (z & Hz); [left|]. rewrite Hz. simpl.
      destruct (proj2 IH) as (zs & Hzs).
      { intros x' Hx'. apply Hall. right. exact Hx'. }
      rewrite Hzs. simpl. eauto.
Qed.

Lemma elem_of_enrolled persons (entry : string * Float32Array) :
  entry ∈ enrolled persons <->
  exists person, person ∈ persons /\ snd entry ∈ descriptors person /\
                 fst entry = name person.
Proof.
  unfold enrolled. rewrite list_elem_of_In, in_flat_map. split.
  - intros (person & Hp & He). apply in_map_iff in He as (d & <- & Hd).
    exists person. rewrite !list_elem_of_In. auto.
  - intros (person & Hp & Hd & Hn). exists person.
    rewrite list_elem_of_In in Hp. rewrite list_elem_of_In in Hd. split; [exact Hp|].
    apply in_map_iff. exists (snd entry). split; [|exact Hd].
    destruct entry; simpl in *. congruence.
Qed.

Lemma fold_pick_not_worse cs bestMatch :
  Number.leb (distance bestMatch) (distance bestMatch) = true ->
  Number.leb (distance (fold_left pick cs bestMatch)) (distance bestMatch) = true.
Proof.
  revert bestMatch. induction cs as [|c cs IH]; intros bestMatch Hb; simpl.
  - exact Hb.
  - unfold pick at 2. destruct (Number.ltb (snd c) (distance bestMatch)) eqn:Hlt.
    + eapply NumberOrder.leb_trans; [apply IH|]; simpl.
      * eapply NumberOrder.ltb_refl_l, Hlt.
      * apply NumberOrder.ltb_leb, Hlt.
    + apply IH, Hb.
Qed.

Section ScanProperties.

Variable euclideanDistance : Float32Array -> Float32Array -> Completion number.

Lemma findBestMatch_candidates persons observed r :
  findBestMatch euclideanDistance persons observed = Normal r ->
  exists cs, candidates euclideanDistance persons observed = Normal cs /\
             r = fold_left pick cs unknownMatch.
Proof.
  intros Hr.
  destruct (candidates euclideanDistance persons observed) as [cs|e] eqn:Hcs.
  - rewrite (findBestMatch_fold _ _ _ _ Hcs) in Hr. injection Hr as <-. eauto.
  - rewrite (findBestMatch_throws _ _ _ _ Hcs) in Hr. discriminate.
Qed.

(** The scan returns exactly when the distance of every enrolled
    descriptor from the face can be computed; one descriptor on which
    [euclideanDistance] throws makes the whole scan throw, whatever else is
    enrolled. *)
Theorem findBestMatch_returns_iff persons observed :
  (exists r, findBestMatch euclideanDistance persons observed = Normal r) <->
  (forall person d, person ∈ persons -> d ∈ descriptors person ->
                    exists x, euclideanDistance d observed = Normal x).
Proof.
  split.
  - intros (r & Hr) person d Hp Hd.
    destruct (findBestMatch_candidates _ _ _ Hr) as (cs & Hcs & _).
    unfold candidates in Hcs.
    destruct (proj1 (mapM_Normal_iff _ _) (ex_intro _ cs Hcs) (name person, d))
      as ([n x] & Hx).
    + apply elem_of_enrolled. exists person. auto.
    + unfold measure in Hx. simpl in Hx.
      destruct (euclideanDistance d observed) as [x'|]; [eauto|discriminate].
  - intros Hall.
    destruct (proj2 (mapM_Normal_iff (measure euclideanDistance observed)
                       (enrolled persons))) as (cs & Hcs).
    + intros entry He. apply elem_of_enrolled in He as (person & Hp & Hd & Hn).
      destruct (Hall person (snd entry) Hp Hd) as (x & Hx).
      unfold measure. rewrite Hx. simpl. eauto.
    + exists (fold_left pick cs unknownMatch). apply findBestMatch_fold, Hcs.
Qed.

Lemma scan_result_enrolled persons observed r :
  findBestMatch euclideanDistance persons observed = Normal r ->
  r = {| label := "unknown"; distance := Finite 1 |} \/
  exists person d,
    person ∈ persons /\ d ∈ descriptors person /\
    label r = name person /\ euclideanDistance d observed = Normal (distance r).
Proof.
  intros Hr. destruct (findBestMatch_candidates _ _ _ Hr) as (cs & Hcs & ->).
  destruct (fold_pick_best_of cs) as [[Hstart _]|(i & Hi & _)]; [left; exact Hstart|].
  right. set (r := fold_left pick cs unknownMatch) in *.
  assert (Hin : (label r, distance r) ∈ cs) by (apply list_elem_of_lookup; eauto).
  destruct (mapM_Normal_elem _ _ _ _ Hcs Hin) as (entry & He & Hm).
  apply elem_of_enrolled in He as (person & Hp & Hd & Hn).
  exists person, (snd entry). repeat split; try assumption.
  - unfold measure in Hm.
    destruct (euclideanDistance (snd entry) observed); simpl in Hm; [|discriminate].
    injection Hm as Hl _. congruence.
  - unfold measure in Hm.
    destruct (euclideanDistance (snd entry) observed); simpl in Hm; [|discriminate].
    injection Hm as _ Hx. congruence.
Qed.

(** Whatever the scan returns is either its start value or a person of the
    registry together with the distance of one of that person's own
    descriptors from the face. *)
Theorem findBestMatch_is_enrolled persons observed r :
  findBestMatch euclideanDistance persons observed = Normal r ->
  r = {| label := "unknown"; distance := Finite 1 |} \/
  exists person d,
    person ∈ persons /\ d ∈ descriptors person /\
    label r = name person /\ euclideanDistance d observed = Normal (distance r).
Proof. apply scan_result_enrolled. Qed.

(** The distance returned is never above 1 and never NaN, so the
    percentage written on the box is never negative. *)
Theorem confidence_never_negative persons observed r :
  findBestMatch euclideanDistance persons observed = Normal r ->
  Number.leb (distance r) (Finite 1) = true /\
  Number.leb (Finite 0) (confidence r) = true.
Proof.
  intros Hr. destruct (findBestMatch_candidates _ _ _ Hr) as (cs & _ & ->).
  assert (Hle : Number.leb (distance (fold_left pick cs unknownMatch)) (Finite 1) = true)
    by (apply (fold_pick_not_worse cs unknownMatch); reflexivity).
  split; [exact Hle|].
  destruct (fold_left pick cs unknownMatch) as [l [| |q|]];
    try discriminate; [reflexivity|].
  change (Qle_bool q 1 = true) in Hle. apply Qle_bool_iff in Hle.
  change (Qle_bool 0 (inject_Z (Qfloor ((1 + - q) * 100 + (1 # 2)))) = true).
  apply Qle_bool_iff. change 0%Q with (inject_Z 0). rewrite <- Zle_Qle.
  apply NumberOrder.round_nonnegative. nra.
Qed.

(** Appending people to the registry never makes the best distance of a
    face worse. *)
Lemma appended_never_worse persons more observed r1 r2 :
  findBestMatch euclideanDistance persons observed = Normal r1 ->
  findBestMatch euclideanDistance (persons ++ more) observed = Normal r2 ->
  Number.leb (distance r2) (distance r1) = true.
Proof.
  intros H1 H2.
  destruct (findBestMatch_candidates _ _ _ H1) as (cs1 & Hcs1 & ->).
  destruct (findBestMatch_candidates _ _ _ H2) as (cs & Hcs & ->).
  unfold candidates, enrolled in Hcs, Hcs1. rewrite flat_map_app, mapM_app in Hcs.
  fold (enrolled persons) in Hcs, Hcs1. rewrite Hcs1 in Hcs. simpl in Hcs.
  destruct (mapM _ (flat_map _ more)) as [cs2|]; simpl in Hcs; [|discriminate].
  injection Hcs as <-. rewrite fold_left_app.
  apply fold_pick_not_worse.
  eapply NumberOrder.leb_refl_l. apply (fold_pick_not_worse cs1 unknownMatch). reflexivity.
Qed.

End ScanProperties.

(** A face matched at one threshold is matched at every lower one: moving
    the slider down never loses a match. *)
Theorem isMatch_at_lower_threshold bestMatch t t' :
  isMatch bestMatch t = true -> Number.leb t' t = true -> isMatch bestMatch t' = true.
Proof. apply NumberOrder.complement_antitone. Qed.

Lemma isMatch_at_lower_threshold_witness :
  isMatch {| label := "Ann"; distance := Finite (1 # 4) |} (Finite 0.6) = true /\
  Number.leb (Finite 0.3) (Finite 0.6) = true /\
  isMatch {| label := "Ann"; distance := Finite (1 # 4) |} (Finite 0.3) = true.
Proof.
  assert (H1 : isMatch {| label := "Ann"; distance := Finite (1 # 4) |} (Finite 0.6) = true)
    by reflexivity.
  assert (H2 : Number.leb (Finite 0.3) (Finite 0.6) = true) by reflexivity.
  exact (conj H1 (conj H2 (isMatch_at_lower_threshold _ _ _ H1 H2))).
Defined.

(** ** What a session does and does not touch *)

Lemma handleMatch_cases render bestMatch w :
  handleMatch render bestMatch w = w \/
  handleMatch render bestMatch w = setLastDetectedPerson None w \/
  (label bestMatch <> "unknown" /\
   notificationsEnabled render = true /\
   Some (label bestMatch) <> lastDetectedPerson render /\
   handleMatch render bestMatch w =
   sendNotification (label bestMatch)
     (setLastDetectedPerson (Some (label bestMatch)) w)).
Proof.
  unfold handleMatch.
  destruct (isMatch bestMatch (confidenceThreshold render)); simpl; [|auto].
  destruct (String.eqb (label bestMatch) "unknown") eqn:Hl; simpl; [auto|].
  destruct (notificationsEnabled render); simpl; [|auto].
  destruct (bool_decide_reflect (Some (label bestMatch) <> lastDetectedPerson render));
    [|auto].
  right. right. apply String.eqb_neq in Hl. auto.
Qed.

Lemma handleMatch_settings render bestMatch w :
  settings (state (handleMatch render bestMatch w)) = settings (state w).
Proof.
  destruct (handleMatch_cases render bestMatch w) as [->|[->|(_ & _ & _ & ->)]];
    reflexivity.
Qed.

Lemma handleMatch_observable render bestMatch w1 w2 :
  observable w1 = observable w2 ->
  observable (handleMatch render bestMatch w1) = observable (handleMatch render bestMatch w2).
Proof.
  unfold observable, handleMatch. intros H. injection H as H1 H2 H3.
  repeat match goal with |- context [if ?c then _ else _] => destruct c end;
    simpl; congruence.
Qed.

Section SessionProperties.

Variable euclideanDistance : Float32Array -> Float32Array -> Completion number.

Lemma forEachDetection_settings render detections w :
  settings (state (fst (forEachDetection euclideanDistance render detections w)))
  = settings (state w).
Proof.
  revert w. induction detections as [|d rest IH]; intros w; simpl; [reflexivity|].
  destruct (findBestMatch _ _ _); [|reflexivity].
  rewrite IH. apply handleMatch_settings.
Qed.

Lemma detectionTick_settings render frame w :
  settings (state (detectionTick euclideanDistance render frame w)) = settings (state w).
Proof.
  destruct frame as [| e | detections]; simpl; try reflexivity.
  destruct (Nat.eqb _ _); [reflexivity|].
  pose proof (forEachDetection_settings render detections w) as H.
  destruct (forEachDetection _ _ _ _) as [w' [e|]]; exact H.
Qed.

(** A session changes neither the registry nor the threshold nor any
    switch: whatever the frames, it writes only the last detected person,
    the notifications and the console. *)
Theorem runCycles_keeps_settings render frames w :
  settings (state (runCycles euclideanDistance render frames w)) = settings (state w).
Proof.
  unfold runCycles. revert w. induction frames as [|frame frames IH]; intros w; simpl.
  - reflexivity.
  - rewrite IH. apply detectionTick_settings.
Qed.

Lemma forEachDetection_observable render detections w1 w2 :
  observable w1 = observable w2 ->
  observable (fst (forEachDetection euclideanDistance render detections w1))
  = observable (fst (forEachDetection euclideanDistance render detections w2)) /\
  snd (forEachDetection euclideanDistance render detections w1)
  = snd (forEachDetection euclideanDistance render detections w2).
Proof.
  revert w1 w2. induction detections as [|d rest IH]; intros w1 w2 H; simpl; [auto|].
  destruct (findBestMatch _ _ _); [|auto].
  apply IH, handleMatch_observable, H.
Qed.

Lemma console_error_observable message e w1 w2 :
  observable w1 = observable w2 ->
  observable (console_error message e w1) = observable (console_error message e w2).
Proof. unfold observable. simpl. intros H. injection H as H1 H2 H3. congruence. Qed.

Lemma detectionTick_observable render frame w1 w2 :
  observable w1 = observable w2 ->
  observable (detectionTick euclideanDistance render frame w1)
  = observable (detectionTick euclideanDistance render frame w2).
Proof.
  intros H. destruct frame as [| e | detections]; simpl.
  - exact H.
  - apply console_error_observable, H.
  - destruct (Nat.eqb _ _); [exact H|].
    destruct (forEachDetection_observable render detections w1 w2 H) as [Ho He].
    destruct (forEachDetection _ _ _ w1) as [w1' e1],
             (forEachDetection _ _ _ w2) as [w2' e2]; simpl in *.
    subst e2. destruct e1; [apply console_error_observable|]; exact Ho.
Qed.

(** A running session reads nothing of the live state: what it announces,
    logs and leaves as last detected person is the same whatever the
    registry, the threshold and the switches have become since it was
    started.  A person deleted, or a threshold moved, during a session
    takes effect at the next start only. *)
Theorem runCycles_ignores_live_state render frames w1 w2 :
  observable w1 = observable w2 ->
  observable (runCycles euclideanDistance render frames w1)
  = observable (runCycles euclideanDistance render frames w2).
Proof.
  unfold runCycles. revert w1 w2.
  induction frames as [|frame frames IH]; intros w1 w2 H; simpl; [exact H|].
  apply IH, detectionTick_observable, H.
Qed.

Lemma announced_by_refl render l : announced_by render l l.
Proof. exists []. rewrite app_nil_r. split; [reflexivity|]. intros n Hn. inversion Hn. Qed.

Lemma announced_by_trans render l1 l2 l3 :
  announced_by render l1 l2 -> announced_by render l2 l3 -> announced_by render l1 l3.
Proof.
  intros (a1 & -> & H1) (a2 & -> & H2). exists (a1 ++ a2).
  rewrite app_assoc. split; [reflexivity|].
  intros n Hn. apply elem_of_app in Hn as [Hn|Hn]; auto.
Qed.

Lemma forEachDetection_announced render detections w :
  announced_by render (notified w)
    (notified (fst (forEachDetection euclideanDistance render detections w))).
Proof.
  revert w. induction detections as [|d rest IH]; intros w; simpl.
  - apply announced_by_refl.
  - destruct (findBestMatch _ _ _) as [bestMatch|] eqn:Hbest; [|apply announced_by_refl].
    eapply announced_by_trans; [|apply IH].
    destruct (handleMatch_cases render bestMatch w) as [->|[->|(Hl & He & Hlast & ->)]];
      try apply announced_by_refl.
    exists [label bestMatch]. split; [reflexivity|].
    intros n Hn. apply list_elem_of_singleton in Hn as ->.
    repeat split; try assumption.
    destruct (scan_result_enrolled _ _ _ _ Hbest) as [Hstart|(person & _ & Hp & _ & Hn & _)].
    + rewrite Hstart in Hl. contradiction Hl. reflexivity.
    + exists person. auto.
Qed.

Lemma detectionTick_announced render frame w :
  announced_by render (notified w)
    (notified (detectionTick euclideanDistance render frame w)).
Proof.
  destruct frame as [| e | detections]; simpl; try apply announced_by_refl.
  destruct (Nat.eqb _ _); [apply announced_by_refl|].
  pose proof (forEachDetection_announced render detections w) as H.
  destruct (forEachDetection _ _ _ _) as [w' [e|]]; exact H.
Qed.

Lemma runCycles_announced render frames w :
  announced_by render (notified w)
    (notified (runCycles euclideanDistance render frames w)).
Proof.
  unfold runCycles. revert w. induction frames as [|frame frames IH]; intros w; simpl.
  - apply announced_by_refl.
  - eapply announced_by_trans; [apply detectionTick_announced|apply IH].
Qed.

(** A session only ever adds to the notifications, and everybody it
    announces is a person of the registry it was started on, is not called
    "unknown", and is not the person who was the last detected one when it
    started. *)
Theorem announced_are_enrolled render frames w :
  exists added,
    notified (runCycles euclideanDistance render frames w) = notified w ++ added /\
    forall n, n ∈ added ->
      n <> "unknown" /\
      Some n <> lastDetectedPerson render /\
      exists person, person ∈ knownPersons render /\ name person = n.
Proof.
  destruct (runCycles_announced render frames w) as (added & Ha & Hall).
  exists added. split; [exact Ha|].
  intros n Hn. destruct (Hall n Hn) as (H1 & _ & H3 & H4). auto.
Qed.

(** A session started with the notifications switched off announces
    nobody, whatever it sees. *)
Theorem silent_when_started_disabled render frames w :
  notificationsEnabled render = false ->
  notified (runCycles euclideanDistance render frames w) = notified w.
Proof.
  intros Hoff. destruct (runCycles_announced render frames w) as (added & Ha & Hall).
  destruct added as [|n added]; [rewrite Ha; apply app_nil_r|].
  destruct (Hall n) as (_ & Hon & _); [left|]. congruence.
Qed.

(** When the scan of a face throws, the effects of the faces before it
    stand, the faces after it are not looked at, and the exception is
    logged instead of leaving the callback. *)
Theorem detectionTick_catches render before bad after w w1 e :
  forEachDetection euclideanDistance render before w = (w1, None) ->
  findBestMatch euclideanDistance (knownPersons render) bad = Throw e ->
  detectionTick euclideanDistance render (Faces (before ++ bad :: after)) w
  = console_error "Error during detection:" e w1.
Proof.
  intros Hbefore Hbad. unfold detectionTick.
  assert (Hlen : Nat.eqb (length (before ++ bad :: after)) 0 = false).
  { rewrite length_app. simpl. rewrite Nat.add_succ_r. reflexivity. }
  rewrite Hlen. clear Hlen.
  assert (H : forEachDetection euclideanDistance render (before ++ bad :: after) w
              = (w1, Some e)).
  { revert w Hbefore. induction before as [|d rest IH]; intros w Hbefore; simpl.
    - injection Hbefore as ->. rewrite Hbad. reflexivity.
    - simpl in Hbefore. destruct (findBestMatch _ _ d); [|discriminate].
      apply IH, Hbefore. }
  rewrite H. reflexivity.
Qed.

End SessionProperties.

(** ** What enrollment and removal keep *)

Lemma map_is_fmap {A B} (f : A -> B) (l : list A) : List.map f l = f <$> l.
Proof. reflexivity. Qed.

(** The two ways an enrollment on an up-to-date render can go. *)
Lemma enroll_cases n d photo persons r :
  enroll n d photo persons = Normal r ->
  (exists i person,
     persons !! i = Some person /\ name person = n /\
     r = <[i := {| name := name person;
                   descriptors := descriptors person ++ [d];
                   photos := photos person ++ [photo] |}]> persons)
  \/
  ((forall other, other ∈ persons -> name other <> n) /\
   r = persons ++ [{| name := n; descriptors := [d]; photos := [photo] |}]).
Proof.
  unfold enroll, enrollUpdater. intros H.
  destruct (findIndex n persons) as [i|] eqn:Hfind.
  - destruct (findIndex_Some _ _ _ Hfind) as (person & Hi & Hn & _).
    rewrite Hi in H. injection H as <-. left. exists i, person. auto.
  - injection H as <-. right. split; [|reflexivity].
    apply findIndex_None, Hfind.
Qed.

Lemma enroll_returns n d photo persons :
  exists r, enroll n d photo persons = Normal r.
Proof.
  unfold enroll, enrollUpdater.
  destruct (findIndex n persons) as [i|] eqn:Hfind; [|eauto].
  destruct (findIndex_Some _ _ _ Hfind) as (person & Hi & _). rewrite Hi. eauto.
Qed.

Lemma filter_index_past index k (l : list Person) :
  index < k -> filter_index index k l = l.
Proof.
  revert k. induction l as [|q l IH]; intros k Hk; simpl; [reflexivity|].
  destruct (Nat.eqb_spec k index); [lia|]. f_equal. apply IH. lia.
Qed.

(** [deletePerson] is the removal of one position. *)
Lemma filter_index_delete index i (prev : list Person) :
  i <= index -> filter_index index i prev = delete (index - i) prev.
Proof.
  revert i. induction prev as [|p rest IH]; intros i Hi; simpl.
  - destruct (index - i); reflexivity.
  - destruct (Nat.eqb_spec i index) as [->|Hne].
    + rewrite Nat.sub_diag. simpl. apply filter_index_past. lia.
    + rewrite IH by lia. replace (index - i) with (S (index - S i)) by lia.
      reflexivity.
Qed.

Lemma deletePerson_delete index (prev : list Person) :
  deletePerson index prev = delete index prev.
Proof.
  unfold deletePerson. rewrite filter_index_delete by lia.
  rewrite Nat.sub_0_r. reflexivity.
Qed.

Lemma aligned_insert persons i person d photo :
  aligned persons -> persons !! i = Some person ->
  aligned (<[i := {| name := name person;
                     descriptors := descriptors person ++ [d];
                     photos := photos person ++ [photo] |}]> persons).
Proof.
  intros Hal Hi q Hq. apply list_elem_of_lookup in Hq as (j & Hj).
  apply list_lookup_insert_Some in Hj as [(_ & <- & _)|(_ & Hj)].
  - simpl. rewrite !length_app. simpl.
    destruct (Hal person) as [Hlen _]; [apply list_elem_of_lookup; eauto|].
    split; [lia|]. destruct (descriptors person); discriminate.
  - apply Hal, list_elem_of_lookup. eauto.
Qed.

Lemma names_insert (persons : list Person) i person d photo :
  persons !! i = Some person ->
  List.map name (<[i := {| name := name person;
                           descriptors := descriptors person ++ [d];
                           photos := photos person ++ [photo] |}]> persons)
  = List.map name persons.
Proof.
  intros Hi. rewrite !map_is_fmap, list_fmap_insert. simpl.
  apply list_insert_id. rewrite list_lookup_fmap, Hi. reflexivity.
Qed.

Lemma enroll_well_formed n d photo persons r :
  unique_names persons -> aligned persons ->
  enroll n d photo persons = Normal r ->
  unique_names r /\ aligned r.
Proof.
  intros Hu Hal Hr.
  destruct (enroll_cases _ _ _ _ _ Hr) as [(i & person & Hi & _ & ->)|(Hnew & ->)].
  - split.
    + unfold unique_names. rewrite names_insert by exact Hi. exact Hu.
    + apply aligned_insert; assumption.
  - split.
    + unfold unique_names in *. rewrite map_is_fmap, fmap_app.
      apply NoDup_app. split; [exact Hu|]. split; [|apply NoDup_singleton].
      intros x Hx Hx'. apply list_elem_of_singleton in Hx'. subst x. simpl in Hx.
      apply list_elem_of_fmap in Hx as (other & Hn & Hother).
      apply (Hnew other Hother). auto.
    + intros q Hq. apply elem_of_app in Hq as [Hq|Hq]; [apply Hal, Hq|].
      apply list_elem_of_singleton in Hq as ->. simpl. split; [reflexivity|discriminate].
Qed.

(** Enrollment keeps the registry well formed: names stay unique, every
    person keeps as many photos as descriptors, and nobody is left without
    a descriptor. *)
Theorem enroll_keeps_well_formed n d photo persons r :
  unique_names persons -> aligned persons ->
  enroll n d photo persons = Normal r ->
  unique_names r /\ aligned r.
Proof. apply enroll_well_formed. Qed.


(** An enrollment changes at most one position of the registry, the one
    at which the render it was started on had the name: every identity at
    another position stays where it was and as it was, and the registry
    grows by one exactly when that render had no identity of the name.
    When the render is up to date ([prev] is the registry the handler
    looked at), this reads: every identity of another name is untouched,
    and the registry grows by one exactly when the name is new.  (On a
    stale render the last reading fails.) *)
Theorem enroll_keeps_the_others render n d photo prev r :
  enrollUpdater render n d photo prev = Normal r ->
  (forall j other,
     prev !! j = Some other -> findIndex n render <> Some j -> r !! j = Some other) /\
  length r = match findIndex n render with
             | Some _ => length prev
             | None => S (length prev)
             end /\
  (render = prev ->
   (forall j other, prev !! j = Some other -> name other <> n -> r !! j = Some other) /\
   length r = (if bool_decide (n ∈ List.map name prev)
               then length prev else S (length prev))).
Proof.
  intros Hr. split; [|split].
  - intros j other Hj Hne. unfold enrollUpdater in Hr.
    destruct (findIndex n render) as [i|].
    + destruct (prev !! i); [|discriminate]. injection Hr as <-.
      rewrite list_lookup_insert_ne; [exact Hj|]. congruence.
    + injection Hr as <-. apply lookup_app_l_Some, Hj.
  - unfold enrollUpdater in Hr. destruct (findIndex n render) as [i|].
    + destruct (prev !! i); [|discriminate]. injection Hr as <-.
      apply length_insert.
    + injection Hr as <-. rewrite length_app. simpl. lia.
  - intros ->. change (enroll n d photo prev = Normal r) in Hr.
    destruct (enroll_cases _ _ _ _ _ Hr) as [(i & person & Hi & Hn & ->)|(Hnew & ->)].
    + split.
      * intros j other Hj Hne. rewrite list_lookup_insert_ne; [exact Hj|].
        intros <-. congruence.
      * rewrite length_insert, bool_decide_true; [reflexivity|].
        rewrite map_is_fmap. apply list_elem_of_fmap. exists person.
        split; [auto|]. apply list_elem_of_lookup. eauto.
    + split.
      * intros j other Hj _. apply lookup_app_l_Some, Hj.
      * rewrite length_app, bool_decide_false; [simpl; lia|].
        rewrite map_is_fmap. intros Hin.
        apply list_elem_of_fmap in Hin as (other & Hn & Hother).
        apply (Hnew other Hother). auto.
Qed.

(** The registry after a removal: the person at the index is taken out and
    nobody else, the order is kept, and an index past the end leaves the
    registry as it was. *)
Theorem deletePerson_removes_one index (prev : list Person) :
  (forall j, j < index -> deletePerson index prev !! j = prev !! j) /\
  (forall j, index <= j -> deletePerson index prev !! j = prev !! S j) /\
  (index < length prev -> S (length (deletePerson index prev)) = length prev) /\
  (length prev <= index -> deletePerson index prev = prev).
Proof.
  rewrite deletePerson_delete. repeat split.
  - intros j Hj. apply list_lookup_delete_lt, Hj.
  - intros j Hj. apply list_lookup_delete_ge, Hj.
  - intros Hi. rewrite length_delete by (apply lookup_lt_is_Some; exact Hi).
    destruct (length prev); lia.
  - intros Hi. revert index Hi. induction prev as [|p rest IH]; intros index Hi.
    + destruct index; reflexivity.
    + destruct index; simpl in *; [lia|]. f_equal. apply IH. lia.
Qed.

(** Enrolling somebody new and then removing the last entry gives the
    registry back. *)
Theorem enroll_then_delete n d photo persons :
  (forall other, other ∈ persons -> name other <> n) ->
  (r <- enroll n d photo persons ;; Normal (deletePerson (length persons) r))
  = Normal persons.
Proof.
  intros Hnew. unfold enroll, enrollUpdater.
  rewrite (proj2 (findIndex_None n persons) Hnew). simpl.
  rewrite deletePerson_delete, delete_middle, app_nil_r. reflexivity.
Qed.

(** ** Enrollment on a stale render *)

(** Two enrollments of a new name started from one render, as two quick
    captures are, both take the name for new: the registry ends with two
    identities of that name. *)
Theorem stale_enrollments_duplicate render n d1 photo1 d2 photo2 :
  (forall other, other ∈ render -> name other <> n) ->
  (registry <- enrollUpdater render n d1 photo1 render ;;
   enrollUpdater render n d2 photo2 registry)
  = Normal (render ++ [{| name := n; descriptors := [d1]; photos := [photo1] |};
                       {| name := n; descriptors := [d2]; photos := [photo2] |}]).
Proof.
  intros Hnew. unfold enrollUpdater.
  rewrite (proj2 (findIndex_None n render) Hnew). simpl.
  rewrite <- app_assoc. reflexivity.
Qed.

(** An enrollment under an existing name that is applied after the
    registry changed writes to the position it found in its own render:
    the descriptor goes to whoever is at that position now, under that
    person's name, and when the position is gone the update throws. *)
Lemma stale_enrollment_hits_the_position render n d photo i prev :
  findIndex n render = Some i ->
  (forall occupant, prev !! i = Some occupant ->
     enrollUpdater render n d photo prev =
     Normal (<[i := {| name := name occupant;
                       descriptors := descriptors occupant ++ [d];
                       photos := photos occupant ++ [photo] |}]> prev)) /\
  (length prev <= i -> enrollUpdater render n d photo prev = Throw "TypeError").
Proof.
  intros Hfind. unfold enrollUpdater. rewrite Hfind. split.
  - intros occupant ->. reflexivity.
  - intros Hlen. rewrite (lookup_ge_None_2 _ _ Hlen). reflexivity.
Qed.

(** ** The page as a whole *)

Section PageProperties.

Variable euclideanDistance : Float32Array -> Float32Array -> Completion number.

Lemma detectionTick_state_fields render frame w :
  isStreamActive (state (detectionTick euclideanDistance render frame w))
    = isStreamActive (state w) /\
  knownPersons (state (detectionTick euclideanDistance render frame w))
    = knownPersons (state w) /\
  detectionActive (state (detectionTick euclideanDistance render frame w))
    = detectionActive (state w).
Proof.
  pose proof (detectionTick_settings euclideanDistance render frame w) as H.
  unfold settings in H. injection H as H1 H2 H3 _ _. auto.
Qed.

Lemma act_consistent p a : consistent p -> consistent (act euclideanDistance p a).
Proof.
  intros (Hsrc & Hdet & Hmod & Hint & Hrender).
  destruct p as [[s n c] models src interval item]. simpl in *.
  assert (Hkeep : consistent
            {| world := {| state := s; notified := n; console := c |};
               modelsLoaded := models; srcObject := src;
               detectionInterval := interval; localStorage := item |})
    by (repeat split; simpl; auto; try apply Hint; apply Hrender; assumption).
  destruct a as [getUserMedia video| | | |frame|nm d photo|index|v|v]; simpl.
  - unfold startWebcam. simpl.
    destruct models; simpl; [|exact Hkeep].
    destruct getUserMedia as [u|e]; simpl; [|exact Hkeep].
    destruct video; simpl; [|exact Hkeep].
    repeat split; simpl; auto; try apply Hint; apply Hrender; assumption.
  - unfold stopWebcam. simpl. destruct src; simpl; [|exact Hkeep].
    destruct (detectionActive s) eqn:Hact; simpl.
    + repeat split; simpl; auto; discriminate.
    + assert (interval = None) as -> by (apply Hint; reflexivity).
      repeat split; simpl; auto; try discriminate. rewrite Hact. discriminate.
  - unfold pageStartDetection, startDetection. simpl.
    destruct (isStreamActive s) eqn:Hs; simpl; [|exact Hkeep].
    destruct (Nat.eqb (length (knownPersons s)) 0) eqn:Hk; simpl; [exact Hkeep|].
    repeat split; simpl; auto; try discriminate.
    + rewrite Hs. exact Hsrc.
    + match goal with H : _ = Some _ |- _ => simpl in H; injection H as <- end.
      exact Hs.
    + match goal with H : _ = Some _ |- _ => simpl in H; injection H as <- end.
      intros Hnil. rewrite Hnil in Hk. discriminate.
  - repeat split; simpl; auto; discriminate.
  - destruct interval as [render|]; simpl; [|exact Hkeep].
    destruct (detectionTick_state_fields render frame
                {| state := s; notified := n; console := c |}) as (H1 & _ & H3).
    simpl in H1, H3. unfold consistent. simpl. rewrite H1, H3. exact Hkeep.
  - destruct (enroll nm d photo (knownPersons s)); simpl; exact Hkeep.
  - exact Hkeep.
  - exact Hkeep.
  - exact Hkeep.
Qed.

Lemma run_invariant (P : Page -> Prop) :
  (forall p a, P p -> P (act euclideanDistance p a)) ->
  forall actions p, P p -> P (run euclideanDistance p actions).
Proof.
  intros Hstep actions. unfold run.
  induction actions as [|a actions IH]; intros p Hp; simpl; [exact Hp|].
  apply IH, Hstep, Hp.
Qed.

Lemma freshPage_consistent models : consistent (freshPage models).
Proof. repeat split; simpl; auto; discriminate. Qed.

(** Whatever is done to the page, in whatever order, its switches stay
    consistent: the stream flag follows the video element, detection is
    active only with a stream, a stream only with the models loaded, and
    an interval runs exactly while detection is flagged active, started on
    a render that had a stream and somebody enrolled. *)
Theorem page_stays_consistent models actions :
  consistent (run euclideanDistance (freshPage models) actions).
Proof.
  apply (run_invariant consistent); [apply act_consistent|apply freshPage_consistent].
Qed.

Lemma act_in_sync p a : in_sync p -> in_sync (act euclideanDistance p a).
Proof.
  unfold in_sync. intros Hp.
  assert (Hset : forall persons,
            in_sync (pageSetKnownPersons persons p)).
  { intros persons. unfold in_sync, pageSetKnownPersons, persistKnownPersons. simpl.
    intros Hne. destruct persons; [contradiction|reflexivity]. }
  destruct a as [getUserMedia video| | | |frame|nm d photo|index|v|v]; simpl.
  - unfold startWebcam. destruct (modelsLoaded p); simpl; [|exact Hp].
    destruct getUserMedia; simpl; [|exact Hp]. destruct video; exact Hp.
  - unfold stopWebcam. destruct (srcObject p); simpl; [|exact Hp].
    destruct (detectionActive _); exact Hp.
  - unfold pageStartDetection, startDetection.
    destruct (negb _ || _); exact Hp.
  - exact Hp.
  - destruct (detectionInterval p) as [render|]; simpl; [|exact Hp].
    destruct (detectionTick_state_fields render frame (world p)) as (_ & -> & _).
    exact Hp.
  - destruct (enroll nm d photo _); [apply Hset|exact Hp].
  - apply Hset.
  - exact Hp.
  - exact Hp.
Qed.

(** Whatever is done to the page, while somebody is enrolled the stored
    item is the serialized registry: every enrollment and every removal
    that leaves somebody is written through. *)
Theorem stored_item_in_sync models actions :
  in_sync (run euclideanDistance (freshPage models) actions).
Proof.
  apply (run_invariant in_sync); [apply act_in_sync|].
  intros Hne. contradiction Hne. reflexivity.
Qed.



Lemma act_modelsLoaded p a : modelsLoaded (act euclideanDistance p a) = modelsLoaded p.
Proof.
  destruct p as [w models src interval item].
  destruct a as [getUserMedia video| | | |frame|nm d photo|index|v|v]; simpl; try reflexivity.
  - unfold startWebcam. simpl. destruct models; simpl; [|reflexivity].
    destruct getUserMedia; simpl; [|reflexivity]. destruct video; reflexivity.
  - unfold stopWebcam. simpl. destruct src; simpl; [|reflexivity].
    destruct (detectionActive _); reflexivity.
  - unfold pageStartDetection. simpl. destruct (startDetection _) as [w' [r|]]; reflexivity.
  - destruct interval; reflexivity.
  - destruct (enroll _ _ _ _); reflexivity.
Qed.

Lemma act_without_interval p a :
  consistent p -> modelsLoaded p = false ->
  notified (world (act euclideanDistance p a)) = notified (world p).
Proof.
  intros (Hsrc & Hdet & Hmod & Hint & _) Hoff.
  assert (Hs : isStreamActive (state (world p)) = false).
  { destruct (isStreamActive (state (world p))); [|reflexivity].
    rewrite Hmod in Hoff by reflexivity. discriminate. }
  assert (Hi : detectionInterval p = None).
  { apply Hint. destruct (detectionActive (state (world p))); [|reflexivity].
    rewrite Hdet in Hs by reflexivity. discriminate. }
  destruct a as [getUserMedia video| | | |frame|nm d photo|index|v|v]; simpl; try reflexivity.
  - unfold startWebcam. rewrite Hoff. reflexivity.
  - unfold stopWebcam. destruct (srcObject p); simpl; [|reflexivity].
    destruct (detectionActive _); reflexivity.
  - unfold pageStartDetection, startDetection. rewrite Hs. reflexivity.
  - rewrite Hi. reflexivity.
  - destruct (enroll _ _ _ _); reflexivity.
Qed.

(** Until the models are loaded nothing can happen: whatever is tried, the
    camera stays off, detection stays off, and nobody is announced. *)
Theorem nothing_without_models actions :
  let p := run euclideanDistance (freshPage false) actions in
  isStreamActive (state (world p)) = false /\
  detectionActive (state (world p)) = false /\
  detectionInterval p = None /\
  notified (world p) = [].
Proof.
  assert (H : let p := run euclideanDistance (freshPage false) actions in
              consistent p /\ modelsLoaded p = false /\ notified (world p) = []).
  { apply (run_invariant
             (fun p => consistent p /\ modelsLoaded p = false /\ notified (world p) = [])).
    - intros p a (Hc & Hoff & Hn). split; [apply act_consistent, Hc|].
      split; [rewrite act_modelsLoaded; exact Hoff|].
      rewrite act_without_interval; assumption.
    - split; [apply freshPage_consistent|]. split; reflexivity. }
  simpl in *. destruct H as ((Hsrc & Hdet & Hmod & Hint & _) & Hoff & Hn).
  assert (Hs : isStreamActive
                 (state (world (run euclideanDistance (freshPage false) actions))) = false).
  { destruct (isStreamActive _); [|reflexivity].
    rewrite Hmod in Hoff by reflexivity. discriminate. }
  assert (Hd : detectionActive
                 (state (world (run euclideanDistance (freshPage false) actions))) = false).
  { destruct (detectionActive _); [|reflexivity].
    rewrite Hdet in Hs by reflexivity. discriminate. }
  repeat split; try assumption. apply Hint, Hd.
Qed.

Lemma handleMatch_notified render bestMatch w1 w2 :
  notified w1 = notified w2 ->
  notified (handleMatch render bestMatch w1) = notified (handleMatch render bestMatch w2).
Proof.
  unfold handleMatch. intros H.
  repeat match goal with |- context [if ?c then _ else _] => destruct c end;
    simpl; congruence.
Qed.

Lemma forEachDetection_notified render detections w1 w2 :
  notified w1 = notified w2 ->
  notified (fst (forEachDetection euclideanDistance render detections w1))
  = notified (fst (forEachDetection euclideanDistance render detections w2)).
Proof.
  revert w1 w2. induction detections as [|d rest IH]; intros w1 w2 H; simpl; [exact H|].
  destruct (findBestMatch _ _ _); [|exact H].
  apply IH, handleMatch_notified, H.
Qed.

(** What a cycle announces does not depend on the live state it runs on. *)
Lemma detectionTick_notified render frame w1 w2 :
  notified w1 = notified w2 ->
  notified (detectionTick euclideanDistance render frame w1)
  = notified (detectionTick euclideanDistance render frame w2).
Proof.
  intros H. destruct frame as [| e | detections]; simpl; try exact H.
  destruct (Nat.eqb _ _); [exact H|].
  pose proof (forEachDetection_notified render detections w1 w2 H) as Hn.
  destruct (forEachDetection _ _ _ w1) as [w1' [e1|]],
           (forEachDetection _ _ _ w2) as [w2' [e2|]]; exact Hn.
Qed.

Lemma stopWebcam_notified p : notified (world (stopWebcam p)) = notified (world p).
Proof.
  destruct p as [[s n c] models src interval item]. unfold stopWebcam. simpl.
  destruct src; simpl; [|reflexivity].
  destruct (detectionActive s); reflexivity.
Qed.

(** Stopping a running camera clears the interval and switches the stream
    and detection off, and detection cannot be started again before the
    camera is.  It does not cancel a cycle that is already waiting for the
    detector: that cycle still runs to its end and announces exactly whom
    it would have announced without the stop. *)
Theorem stopWebcam_clears_the_interval p render frame :
  consistent p -> srcObject p = true ->
  let p' := stopWebcam p in
  isStreamActive (state (world p')) = false /\
  detectionActive (state (world p')) = false /\
  detectionInterval p' = None /\
  world (act euclideanDistance p' StartDetection) = world p' /\
  detectionInterval (act euclideanDistance p' StartDetection) = None /\
  notified (world (finishCycle euclideanDistance render frame p'))
  = notified (detectionTick euclideanDistance render frame (world p)).
Proof.
  intros Hc Hon.
  assert (Hlast : notified (world (finishCycle euclideanDistance render frame (stopWebcam p)))
                  = notified (detectionTick euclideanDistance render frame (world p))).
  { unfold finishCycle, withWorld. simpl.
    apply detectionTick_notified, stopWebcam_notified. }
  destruct Hc as (Hsrc & Hdet & Hmod & Hint & _).
  destruct p as [[s n c] models src interval item]. simpl in *.
  rewrite Hon in *. clear Hon src.
  unfold stopWebcam in *. simpl in *.
  destruct (detectionActive s) eqn:Hact; simpl in *.
  - repeat split. exact Hlast.
  - assert (interval = None) as -> by (apply Hint; reflexivity).
    unfold pageStartDetection, startDetection. simpl.
    repeat split; [exact Hact|exact Hlast].
Qed.

End PageProperties.

(** ** The notification switch *)

Lemma toggle_keeps_permission_invariant answer b s :
  (notificationsEnabled s = true -> hasNotification b = true ->
   permission b = granted) ->
  let bs := toggleNotifications answer b s in
  notificationsEnabled (snd bs) = true -> hasNotification (fst bs) = true ->
  permission (fst bs) = granted.
Proof.
  intros Hinv. unfold toggleNotifications.
  destruct b as [api perm]. simpl in *.
  destruct (notificationsEnabled s) eqn:He; simpl; [discriminate|].
  destruct api; simpl; [|intros _ H; discriminate H].
  destruct perm; simpl; [reflexivity| |];
    destruct answer; simpl; try reflexivity; rewrite He; discriminate.
Qed.

(** However often the switch is used, notifications that are on in a
    browser with the Notification interface have its permission: every
    announcement then raises a web notification beside its toast. *)
Theorem enabled_notifications_are_permitted answers b s :
  notificationsEnabled s = false ->
  let bs := toggleAll answers (b, s) in
  notificationsEnabled (snd bs) = true -> hasNotification (fst bs) = true ->
  webNotification (fst bs) = true.
Proof.
  intros Hoff.
  assert (H : forall start,
            (notificationsEnabled (snd start) = true -> hasNotification (fst start) = true ->
             permission (fst start) = granted) ->
            notificationsEnabled (snd (toggleAll answers start)) = true ->
            hasNotification (fst (toggleAll answers start)) = true ->
            permission (fst (toggleAll answers start)) = granted).
  { unfold toggleAll. induction answers as [|answer answers IH]; intros start Hinv; simpl.
    - exact Hinv.
    - apply IH. apply toggle_keeps_permission_invariant, Hinv. }
  simpl. intros He Ha. unfold webNotification. rewrite Ha.
  rewrite (H (b, s)); auto. simpl. rewrite Hoff. discriminate.
Qed.

(** One use of the switch.  Off always goes through.  On goes through at
    once without the Notification interface or with its permission, and
    otherwise only when the user grants the permission asked for; the
    switch changes nothing else of the state. *)
Lemma toggleNotifications_effect answer b s :
  let bs := toggleNotifications answer b s in
  (notificationsEnabled s = true -> notificationsEnabled (snd bs) = false) /\
  (notificationsEnabled s = false ->
   notificationsEnabled (snd bs) =
   negb (hasNotification b) || is_granted (permission b) || is_granted answer) /\
  (isStreamActive (snd bs), knownPersons (snd bs), detectionActive (snd bs),
   lastDetectedPerson (snd bs), confidenceThreshold (snd bs))
  = (isStreamActive s, knownPersons s, detectionActive s,
     lastDetectedPerson s, confidenceThreshold s).
Proof.
  unfold toggleNotifications.
  destruct (notificationsEnabled s) eqn:He, (hasNotification b),
    (is_granted (permission b)); simpl;
    repeat split; try discriminate; try reflexivity;
    destruct (is_granted answer); simpl; auto.
Qed.

(** ** Storing and restoring, in general *)

Section ReloadProperties.

Variable ToNumber_other : json -> Completion number.

Lemma restorePersons_entries items :
  restorePersons ToNumber_other (JArray items) = mapM (restoreEntry ToNumber_other) items.
Proof. reflexivity. Qed.

Lemma reload_elements (desc : Float32Array) :
  new_Float32Array ToNumber_other (List.map toJSON (List.map JNumber desc))
  = Normal (List.map reloaded_element desc).
Proof.
  unfold new_Float32Array. induction desc as [|x desc IH]; simpl; [reflexivity|].
  rewrite IH. unfold reloaded_element. destruct (Number.isFinite x); reflexivity.
Qed.

Lemma reload_descriptors (ds : list Float32Array) :
  mapM (fun desc => values <- Object_values desc ;;
                    new_Float32Array ToNumber_other values)
       (List.map toJSON (List.map (fun desc => JArray (List.map JNumber desc)) ds))
  = Normal (List.map (List.map reloaded_element) ds).
Proof.
  induction ds as [|desc ds IH]; simpl; [reflexivity|].
  rewrite reload_elements. simpl. rewrite IH. reflexivity.
Qed.

Lemma toJSON_strings_entry (l : list string) :
  List.map toJSON (List.map JString l) = List.map JString l.
Proof. rewrite List.map_map. reflexivity. Qed.

Lemma reload_persons persons :
  restorePersons ToNumber_other (toJSON (serializablePersons persons))
  = Normal (List.map reloaded persons).
Proof.
  unfold restorePersons, serializablePersons, array_map. simpl.
  induction persons as [|person persons IH]; simpl; [reflexivity|].
  rewrite reload_descriptors. simpl. rewrite IH. simpl.
  unfold reloaded at 2. rewrite toJSON_strings_entry. reflexivity.
Qed.

(** What comes back after a reload, for any registry: the names and photos
    as they were, every finite descriptor element rounded to binary32, and
    0 in place of every NaN or infinity.  An empty registry is not written,
    so after it the reload shows whatever was stored before. *)
Theorem reload_after_persist persons item :
  (persons <> [] ->
   loadSavedPersons ToNumber_other (persistKnownPersons persons item)
   = (List.map reloaded persons, [])) /\
  loadSavedPersons ToNumber_other (persistKnownPersons [] item)
  = loadSavedPersons ToNumber_other item.
Proof.
  split; [|reflexivity].
  intros Hne. destruct persons as [|person rest]; [contradiction|].
  unfold persistKnownPersons, loadSavedPersons, JSON_stringify. simpl length.
  cbn [Nat.ltb Nat.leb truthy JSON_parse bind].
  rewrite reload_persons. reflexivity.
Qed.

(** A stored item that parses to anything but an array restores nobody:
    the [map] call throws, the exception is caught and logged. *)
Theorem load_of_a_non_array v :
  (forall items, v <> JArray items) ->
  loadSavedPersons ToNumber_other (Some (JSONText v))
  = ([], [("Error loading saved persons:", "TypeError")]).
Proof.
  intros Hv. destruct v; try reflexivity. contradiction (Hv items). reflexivity.
Qed.

(** An entry is restored only if it is an object whose [descriptors] is an
    array; then every element of that array gives one descriptor, and a
    missing [name] or [photos] is passed on as [undefined]. *)
Theorem restoreEntry_needs_descriptors person r :
  restoreEntry ToNumber_other person = Normal r ->
  exists properties ds,
    person = JObject properties /\
    getProperty person "descriptors" = Normal (Some (JArray ds)) /\
    length (restored_descriptors r) = length ds /\
    getProperty person "name" = Normal (restored_name r) /\
    getProperty person "photos" = Normal (restored_photos r).
Proof.
  unfold restoreEntry. intros H.
  destruct person as [| b | x | t | items | properties]; try discriminate.
  exists properties.
  destruct (getProperty (JObject properties) "name") as [nm|] eqn:Hn;
    [|discriminate].
  destruct (getProperty (JObject properties) "descriptors")
    as [[[| b0 | n0 | s0 | ds | ps]|]|e0] eqn:Hd; try discriminate.
  destruct (getProperty (JObject properties) "photos") as [ph|] eqn:Hp.
  - cbn [bind array_map] in H.
    destruct (mapM _ ds) as [restored|] eqn:Hm; cbn [bind] in H; [|discriminate].
    injection H as <-. simpl. exists ds. repeat split.
    eapply mapM_Normal_length, Hm.
  - cbn [bind array_map] in H.
    destruct (mapM _ ds); cbn [bind] in H; discriminate.
Qed.

(** Restoring is all or nothing: when it succeeds the item was an array
    and every one of its entries gave one person, in order, with no merging
    of equal names; one entry that cannot be restored leaves the registry
    empty, however many good entries surround it. *)
Theorem restore_is_all_or_nothing items :
  (forall rs, restorePersons ToNumber_other (JArray items) = Normal rs ->
     length rs = length items /\
     forall item, item ∈ items -> exists r, restoreEntry ToNumber_other item = Normal r) /\
  (forall item e, item ∈ items -> restoreEntry ToNumber_other item = Throw e ->
     exists e', loadSavedPersons ToNumber_other (Some (JSONText (JArray items)))
                = ([], [("Error loading saved persons:", e')])).
Proof.
  rewrite restorePersons_entries. split.
  - intros rs Hrs. split; [eapply mapM_Normal_length, Hrs|].
    apply mapM_Normal_iff. eauto.
  - intros item e Hin He. unfold loadSavedPersons. simpl.
    rewrite restorePersons_entries.
    destruct (mapM (restoreEntry ToNumber_other) items) as [rs|e'] eqn:Hm; [|eauto].
    destruct (proj1 (mapM_Normal_iff _ _) (ex_intro _ rs Hm) item Hin) as (r & Hr).
    congruence.
Qed.

End ReloadProperties.

(** ** Loading the models *)

Section LoadModelsProperties.

Variable loadFromUri : Net -> string -> bool.

Lemma loadInOrder_result steps l :
  snd (loadInOrder loadFromUri steps l)
    = forallb (fun step => loadFromUri (snd step) MODEL_URL) steps /\
  isModelLoaded (fst (loadInOrder loadFromUri steps l)) = isModelLoaded l /\
  toasts (fst (loadInOrder loadFromUri steps l)) = toasts l /\
  loading_console (fst (loadInOrder loadFromUri steps l)) = loading_console l /\
  (steps <> [] ->
   modelLoadingProgress (fst (loadInOrder loadFromUri steps l))
     ∈ List.map (fun step => snd (fst step)) steps).
Proof.
  revert l. induction steps as [|[[status progress] net] rest IH]; intros l; simpl.
  - repeat split. intros H. contradiction H. reflexivity.
  - destruct (loadFromUri net MODEL_URL); simpl.
    + destruct (IH (setLoading status progress l)) as (H1 & H2 & H3 & H4 & H5).
      repeat split; try assumption. intros _.
      destruct rest as [|step rest']; [left|right; apply H5; discriminate].
    + repeat split. intros _. left.
Qed.

Lemma tryBackups_result urls l :
  isModelLoaded l = false ->
  isModelLoaded (tryBackups loadFromUri urls l) = existsb (loadAll loadFromUri) urls /\
  (existsb (loadAll loadFromUri) urls = true ->
   modelLoadingProgress (tryBackups loadFromUri urls l) = 100) /\
  (existsb (loadAll loadFromUri) urls = false ->
   modelLoadingProgress (tryBackups loadFromUri urls l) = modelLoadingProgress l /\
   loadingStatus (tryBackups loadFromUri urls l) = "Failed to load models from all sources" /\
   toasts (tryBackups loadFromUri urls l) = toasts l ++ ["Critical error"] /\
   length (loading_console (tryBackups loadFromUri urls l))
     = length (loading_console l) + length urls).
Proof.
  revert l. induction urls as [|url rest IH]; intros l Hoff; simpl.
  - repeat split; try discriminate; auto.
  - destruct (loadAll loadFromUri url); simpl.
    + repeat split; discriminate.
    + destruct (IH (loading_error ("Backup " ++ url ++ " failed:")%string
                      (setLoadingStatus ("Trying backup: " ++ url)%string l)) Hoff)
        as (H1 & H2 & H3).
      split; [exact H1|]. split; [exact H2|]. intros Hnone.
      destruct (H3 Hnone) as (H4 & H5 & H6 & H7). simpl in *.
      repeat split; try assumption.
      rewrite H7, length_app. simpl. lia.
Qed.

Lemma loadInOrder_primary l :
  snd (loadInOrder loadFromUri primarySteps l) = loadAll loadFromUri MODEL_URL.
Proof.
  rewrite (proj1 (loadInOrder_result primarySteps l)). reflexivity.
Qed.

(** The models end up loaded exactly when all four nets load from the
    main address or all four load from one of the two backup addresses. *)
Theorem loadModels_loaded_iff l :
  isModelLoaded l = false ->
  isModelLoaded (loadModels loadFromUri l)
  = loadAll loadFromUri MODEL_URL || existsb (loadAll loadFromUri) backupUrls.
Proof.
  intros Hoff. unfold loadModels.
  pose proof (loadInOrder_primary l) as Hp.
  destruct (loadInOrder_result primarySteps l) as (_ & Hl & _).
  destruct (loadInOrder loadFromUri primarySteps l) as [l' ok].
  cbn [fst snd] in Hp, Hl. rewrite <- Hp. destruct ok; [reflexivity|].
  cbn [orb]. refine (proj1 (tryBackups_result backupUrls _ _)).
  cbn [setLoadingStatus setLoading loading_error isModelLoaded]. congruence.
Qed.

(** The progress bar tells the outcome: it is at 100 exactly when the
    models are loaded; when every address failed it is left where the main
    address failed (20, 40, 60 or 80), the status reads "Failed to load
    models from all sources", the last toast is the critical one, and one
    error per address went to the console. *)
Theorem loadModels_progress l :
  isModelLoaded l = false ->
  let r := loadModels loadFromUri l in
  (isModelLoaded r = true -> modelLoadingProgress r = 100) /\
  (isModelLoaded r = false ->
   modelLoadingProgress r ∈ [20; 40; 60; 80] /\
   loadingStatus r = "Failed to load models from all sources" /\
   toasts r = toasts l ++ ["Critical error"] /\
   length (loading_console r) = length (loading_console l) + 3).
Proof.
  intros Hoff. unfold loadModels. cbv zeta.
  destruct (loadInOrder_result primarySteps l) as (_ & Hl & Ht & Hc & Hprog).
  destruct (loadInOrder loadFromUri primarySteps l) as [l' ok].
  cbn [fst snd] in Hl, Ht, Hc, Hprog. destruct ok.
  - split; [reflexivity|discriminate].
  - set (l2 := setLoadingStatus "Error loading models. Trying backup..."
                 (loading_error "Error loading models:" l')).
    assert (Hoff2 : isModelLoaded l2 = false) by (simpl; congruence).
    destruct (tryBackups_result backupUrls l2 Hoff2) as (H1 & H2 & H3).
    split.
    + intros Hon. apply H2. congruence.
    + intros Hno. rewrite H1 in Hno. destruct (H3 Hno) as (H4 & H5 & H6 & H7).
      repeat split.
      * rewrite H4. apply Hprog. discriminate.
      * exact H5.
      * rewrite H6. unfold l2. simpl. rewrite Ht. reflexivity.
      * rewrite H7. unfold l2. simpl. rewrite length_app, Hc. simpl. lia.
Qed.

(** When the main address serves all four nets, no backup is contacted:
    the outcome is the same whatever the backups would have done. *)
Lemma loadModels_primary_suffices l :
  loadAll loadFromUri MODEL_URL = true ->
  loadModels loadFromUri l
  = loaded "Models loaded successfully!" "Models loaded"
      (setLoading "Loading face expressions..." 80 l).
Proof.
  unfold loadAll, loadModels. simpl. intros H.
  repeat (apply andb_prop in H as [-> H]). reflexivity.
Qed.

End LoadModelsProperties.

(** ** An enrollment never worsens a match *)

Lemma mapM_Normal_elem_of {A B} (f : A -> Completion B) (xs : list A) ys x y :
  mapM f xs = Normal ys -> x ∈ xs -> f x = Normal y -> y ∈ ys.
Proof.
  revert ys. induction xs as [|x' xs IH]; simpl; intros ys H Hx Hy.
  - inversion Hx.
  - destruct (f x') as [z|] eqn:Hz; simpl in H; [|discriminate].
    destruct (mapM f xs) as [zs|]; simpl in H; [|discriminate].
    injection H as <-. apply elem_of_cons in Hx as [->|Hx].
    + rewrite Hy in Hz. injection Hz as ->. left.
    + right. apply (IH zs eq_refl Hx Hy).
Qed.

(** The two ways the update passed to [setKnownPersons] can go when it
    does not throw. *)
Lemma enrollUpdater_cases render n d photo prev r :
  enrollUpdater render n d photo prev = Normal r ->
  (exists i occupant,
     prev !! i = Some occupant /\
     r = <[i := {| name := name occupant;
                   descriptors := descriptors occupant ++ [d];
                   photos := photos occupant ++ [photo] |}]> prev)
  \/ r = prev ++ [{| name := n; descriptors := [d]; photos := [photo] |}].
Proof.
  unfold enrollUpdater. intros H.
  destruct (findIndex n render) as [i|].
  - destruct (prev !! i) as [occupant|] eqn:Hi; [|discriminate].
    injection H as <-. left. exists i, occupant. auto.
  - injection H as <-. right. reflexivity.
Qed.

Lemma enrollUpdater_extends render n d photo prev r :
  enrollUpdater render n d photo prev = Normal r -> extends prev r.
Proof.
  intros H entry He. apply elem_of_enrolled in He as (person & Hp & Hd & Hn).
  apply elem_of_enrolled.
  destruct (enrollUpdater_cases _ _ _ _ _ _ H) as [(i & occupant & Hi & ->)| ->].
  - apply list_elem_of_lookup in Hp as (j & Hj).
    destruct (decide (i = j)) as [<-|Hne].
    + assert (person = occupant) as -> by congruence.
      exists {| name := name occupant;
                descriptors := descriptors occupant ++ [d];
                photos := photos occupant ++ [photo] |}.
      split; [|split; [simpl; apply elem_of_app; left; exact Hd|exact Hn]].
      apply list_elem_of_lookup. exists i.
      apply list_lookup_insert_eq. eapply lookup_lt_Some, Hi.
    + exists person. split; [|auto].
      apply list_elem_of_lookup. exists j.
      rewrite list_lookup_insert_ne by exact Hne. exact Hj.
  - exists person. split; [|auto]. apply elem_of_app. left. exact Hp.
Qed.

Lemma leb_of_not_ltb a b :
  Number.leb a a = true -> Number.leb b b = true ->
  Number.ltb a b = false -> Number.leb b a = true.
Proof.
  destruct a, b; simpl; intros; try discriminate; try reflexivity.
  NumberFacts.order.
Qed.

Lemma fold_pick_of_more cs cs' :
  (forall c, c ∈ cs -> c ∈ cs') ->
  Number.leb (distance (fold_left pick cs' unknownMatch))
             (distance (fold_left pick cs unknownMatch)) = true.
Proof.
  intros Hsub.
  assert (Hle' : Number.leb (distance (fold_left pick cs' unknownMatch)) (Finite 1) = true)
    by (apply (fold_pick_not_worse cs' unknownMatch); reflexivity).
  destruct (fold_pick_best_of cs) as [[-> _]|(i & Hi & Hlt & _)]; [exact Hle'|].
  set (r := fold_left pick cs unknownMatch) in *.
  assert (Hin : (label r, distance r) ∈ cs') by (apply Hsub, list_elem_of_lookup; eauto).
  assert (Hnot : Number.ltb (distance r) (distance (fold_left pick cs' unknownMatch)) = false).
  { destruct (fold_pick_best_of cs') as [[Hs Hall]|(i' & _ & _ & Hall & _)].
    - apply Hall in Hin. simpl in Hin. congruence.
    - apply (Hall _ Hin). }
  apply leb_of_not_ltb; [|eapply NumberOrder.leb_refl_l, Hle'|exact Hnot].
  eapply NumberOrder.ltb_refl_l, Hlt.
Qed.

(** An enrollment never makes the best distance of a face worse, whether
    it adds a person at the end or appends a descriptor to somebody already
    enrolled, and whatever render it was started on: the distance returned
    on the registry after the update is at most the one returned before. *)
Theorem more_enrolled_never_worse
    (euclideanDistance : Float32Array -> Float32Array -> Completion number)
    render n d photo prev registry observed r1 r2 :
  enrollUpdater render n d photo prev = Normal registry ->
  findBestMatch euclideanDistance prev observed = Normal r1 ->
  findBestMatch euclideanDistance registry observed = Normal r2 ->
  Number.leb (distance r2) (distance r1) = true.
Proof.
  intros Hup H1 H2.
  destruct (findBestMatch_candidates _ _ _ _ H1) as (cs & Hcs & ->).
  destruct (findBestMatch_candidates _ _ _ _ H2) as (cs' & Hcs' & ->).
  apply fold_pick_of_more. intros c Hc.
  destruct (mapM_Normal_elem _ _ _ _ Hcs Hc) as (entry & He & Hm).
  eapply mapM_Normal_elem_of; [exact Hcs'| |exact Hm].
  apply (enrollUpdater_extends _ _ _ _ _ _ Hup), He.
Qed.

(** ** The further properties on concrete inputs *)

Ltac members :=
  repeat match goal with
    | H : _ ∈ _ :: _ |- _ => apply elem_of_cons in H as [->|H]
    | H : _ ∈ [] |- _ => inversion H
    | H : _ ∈ descriptors _ |- _ => simpl in H
    end.

Lemma ann_bob_measurable person d :
  person ∈ [ann; bob] -> d ∈ descriptors person ->
  exists x, faceapi_euclideanDistance d face_near_ann = Normal x.
Proof. intros Hp Hd. members; eexists; vm_compute; reflexivity. Defined.

Lemma findBestMatch_returns_iff_witness :
  exists r, findBestMatch faceapi_euclideanDistance [ann; bob] face_near_ann = Normal r.
Proof.
  exact (proj2 (findBestMatch_returns_iff faceapi_euclideanDistance [ann; bob] face_near_ann)
               ann_bob_measurable).
Defined.

Lemma ann_bob_best :
  findBestMatch faceapi_euclideanDistance [ann; bob] face_near_ann
  = Normal {| label := "Ann"; distance := Finite (1 # 4) |}.
Proof. vm_compute. reflexivity. Defined.

Lemma ann_best :
  findBestMatch faceapi_euclideanDistance [ann] face_near_ann
  = Normal {| label := "Ann"; distance := Finite (1 # 4) |}.
Proof. vm_compute. reflexivity. Defined.

Lemma findBestMatch_is_enrolled_witness :
  {| label := "Ann"; distance := Finite (1 # 4) |}
    = {| label := "unknown"; distance := Finite 1 |} \/
  exists person d,
    person ∈ [ann; bob] /\ d ∈ descriptors person /\
    "Ann" = name person /\
    faceapi_euclideanDistance d face_near_ann = Normal (Finite (1 # 4)).
Proof.
  exact (findBestMatch_is_enrolled faceapi_euclideanDistance [ann; bob] face_near_ann
           _ ann_bob_best).
Defined.

Lemma confidence_never_negative_witness :
  Number.leb (Finite (1 # 4)) (Finite 1) = true /\
  Number.leb (Finite 0) (confidence {| label := "Ann"; distance := Finite (1 # 4) |}) = true.
Proof.
  exact (confidence_never_negative faceapi_euclideanDistance [ann; bob] face_near_ann
           _ ann_bob_best).
Defined.

(** A second photo of Bob, closer to the face than the first one: the
    distance of the face falls from 1/4 to 1/8. *)
Lemma more_enrolled_never_worse_witness :
  enrollUpdater [bob] "Bob" [Finite (3 # 8)] "bob2.jpg" [bob]
  = Normal [{| name := "Bob";
               descriptors := [[Finite (1 # 2)]; [Finite (3 # 8)]];
               photos := ["bob.jpg"; "bob2.jpg"] |}] /\
  findBestMatch faceapi_euclideanDistance [bob] face_near_ann
  = Normal {| label := "Bob"; distance := Finite (2 # 8) |} /\
  findBestMatch faceapi_euclideanDistance
    [{| name := "Bob";
        descriptors := [[Finite (1 # 2)]; [Finite (3 # 8)]];
        photos := ["bob.jpg"; "bob2.jpg"] |}] face_near_ann
  = Normal {| label := "Bob"; distance := Finite (4 # 32) |} /\
  Number.leb (Finite (4 # 32)) (Finite (2 # 8)) = true.
Proof.
  assert (Hup : enrollUpdater [bob] "Bob" [Finite (3 # 8)] "bob2.jpg" [bob]
                = Normal [{| name := "Bob";
                             descriptors := [[Finite (1 # 2)]; [Finite (3 # 8)]];
                             photos := ["bob.jpg"; "bob2.jpg"] |}])
    by reflexivity.
  assert (H1 : findBestMatch faceapi_euclideanDistance [bob] face_near_ann
               = Normal {| label := "Bob"; distance := Finite (2 # 8) |})
    by (vm_compute; reflexivity).
  assert (H2 : findBestMatch faceapi_euclideanDistance
                 [{| name := "Bob";
                     descriptors := [[Finite (1 # 2)]; [Finite (3 # 8)]];
                     photos := ["bob.jpg"; "bob2.jpg"] |}] face_near_ann
               = Normal {| label := "Bob"; distance := Finite (4 # 32) |})
    by (vm_compute; reflexivity).
  split; [exact Hup|]. split; [exact H1|]. split; [exact H2|].
  exact (more_enrolled_never_worse faceapi_euclideanDistance
           _ _ _ _ _ _ _ _ _ Hup H1 H2).
Defined.

Lemma runCycles_ignores_live_state_witness :
  observable (runCycles faceapi_euclideanDistance (state ready_world)
                [Faces [face_near_ann]] ready_world)
  = observable (runCycles faceapi_euclideanDistance (state ready_world)
                  [Faces [face_near_ann]]
                  (withState (fun s => setConfidenceThreshold (Finite 0.9)
                                         (setKnownPersons [] s)) ready_world)).
Proof.
  exact (runCycles_ignores_live_state faceapi_euclideanDistance (state ready_world)
           [Faces [face_near_ann]] ready_world
           (withState (fun s => setConfidenceThreshold (Finite 0.9)
                                  (setKnownPersons [] s)) ready_world)
           eq_refl).
Defined.

Lemma announced_are_enrolled_witness :
  exists added,
    notified (runCycles faceapi_euclideanDistance (state ready_world)
                [Faces [face_near_ann]] ready_world) = [] ++ added /\
    forall n, n ∈ added ->
      n <> "unknown" /\ Some n <> None /\
      exists person, person ∈ [ann] /\ name person = n.
Proof.
  exact (announced_are_enrolled faceapi_euclideanDistance (state ready_world)
           [Faces [face_near_ann]] ready_world).
Defined.

Lemma silent_when_started_disabled_witness :
  notified (runCycles faceapi_euclideanDistance
              (setNotificationsEnabled false (state ready_world))
              [Faces [face_near_ann]; Faces [face_near_ann]] ready_world) = [].
Proof.
  exact (silent_when_started_disabled faceapi_euclideanDistance
           (setNotificationsEnabled false (state ready_world))
           [Faces [face_near_ann]; Faces [face_near_ann]] ready_world eq_refl).
Defined.

Lemma detectionTick_catches_witness :
  detectionTick faceapi_euclideanDistance (state ready_world)
    (Faces ([face_near_ann] ++ face_of_other_length :: [face_near_ann])) ready_world
  = console_error "Error during detection:"
      "euclideanDistance: arr1.length !== arr2.length"
      (sendNotification "Ann" (setLastDetectedPerson (Some "Ann") ready_world)).
Proof.
  refine (detectionTick_catches faceapi_euclideanDistance (state ready_world)
            [face_near_ann] face_of_other_length [face_near_ann] ready_world _ _ _ _);
    vm_compute; reflexivity.
Defined.

Lemma runCycles_repeat_witness :
  notified (runCycles faceapi_euclideanDistance (state ready_world)
              (repeat (Faces [face_near_ann]) 3) ready_world)
  = [] ++ repeat "Ann" 3.
Proof.
  refine (runCycles_repeat faceapi_euclideanDistance (state ready_world) face_near_ann
            {| label := "Ann"; distance := Finite (1 # 4) |} 3 ready_world
            ann_best eq_refl _ eq_refl _); discriminate.
Defined.

Lemma ann_bob_unique : unique_names [ann; bob].
Proof.
  unfold unique_names. simpl. apply NoDup_cons. split.
  - intros H. apply elem_of_cons in H as [H|H]; [discriminate|inversion H].
  - apply NoDup_singleton.
Defined.

Lemma ann_bob_aligned : aligned [ann; bob].
Proof. intros person Hp. members; split; try reflexivity; discriminate. Defined.

Lemma ann_again :
  enroll "Ann" [Finite 1] "ann2.jpg" [ann; bob]
  = Normal [{| name := "Ann"; descriptors := [[Finite 0]; [Finite 1]];
               photos := ["ann.jpg"; "ann2.jpg"] |}; bob].
Proof. vm_compute. reflexivity. Defined.

Lemma enroll_keeps_well_formed_witness :
  unique_names [{| name := "Ann"; descriptors := [[Finite 0]; [Finite 1]];
                   photos := ["ann.jpg"; "ann2.jpg"] |}; bob] /\
  aligned [{| name := "Ann"; descriptors := [[Finite 0]; [Finite 1]];
              photos := ["ann.jpg"; "ann2.jpg"] |}; bob].
Proof.
  exact (enroll_keeps_well_formed "Ann" [Finite 1] "ann2.jpg" [ann; bob] _
           ann_bob_unique ann_bob_aligned ann_again).
Defined.

(** Ann is enrolled again on an up-to-date render: Bob, at position 1,
    stays as he is and the registry keeps its length. *)
Lemma enroll_keeps_the_others_witness :
  [{| name := "Ann"; descriptors := [[Finite 0]; [Finite 1]];
      photos := ["ann.jpg"; "ann2.jpg"] |}; bob] !! 1 = Some bob /\
  length [{| name := "Ann"; descriptors := [[Finite 0]; [Finite 1]];
             photos := ["ann.jpg"; "ann2.jpg"] |}; bob] = 2 /\
  ([{| name := "Ann"; descriptors := [[Finite 0]; [Finite 1]];
       photos := ["ann.jpg"; "ann2.jpg"] |}; bob] !! 1 = Some bob /\
   length [{| name := "Ann"; descriptors := [[Finite 0]; [Finite 1]];
              photos := ["ann.jpg"; "ann2.jpg"] |}; bob] = 2).
Proof.
  destruct (enroll_keeps_the_others [ann; bob] "Ann" [Finite 1] "ann2.jpg" [ann; bob] _
              ann_again) as (Hothers & Hlength & Hcurrent).
  split; [|split; [exact Hlength|]].
  - apply (Hothers 1 bob eq_refl). discriminate.
  - destruct (Hcurrent eq_refl) as (Hnames & Hgrows).
    split; [|exact Hgrows]. apply (Hnames 1 bob eq_refl). discriminate.
Defined.

Lemma deletePerson_removes_one_witness : deletePerson 5 [ann; bob] = [ann; bob].
Proof.
  refine (proj2 (proj2 (proj2 (deletePerson_removes_one 5 [ann; bob]))) _).
  simpl. lia.
Defined.

Lemma nobody_called_ann other : other ∈ [bob] -> name other <> "Ann".
Proof. intros H. members. discriminate. Defined.

Lemma enroll_then_delete_witness :
  (r <- enroll "Ann" [Finite 0] "ann.jpg" [bob] ;; Normal (deletePerson 1 r))
  = Normal [bob].
Proof.
  exact (enroll_then_delete "Ann" [Finite 0] "ann.jpg" [bob] nobody_called_ann).
Defined.

Lemma stale_enrollments_duplicate_witness :
  (registry <- enrollUpdater [bob] "Ann" [Finite 0] "ann.jpg" [bob] ;;
   enrollUpdater [bob] "Ann" [Finite 1] "ann2.jpg" registry)
  = Normal ([bob] ++ [{| name := "Ann"; descriptors := [[Finite 0]]; photos := ["ann.jpg"] |};
                      {| name := "Ann"; descriptors := [[Finite 1]]; photos := ["ann2.jpg"] |}]).
Proof.
  exact (stale_enrollments_duplicate [bob] "Ann" [Finite 0] "ann.jpg" [Finite 1] "ann2.jpg"
           nobody_called_ann).
Defined.

Lemma enroll_written_through_witness :
  commit (enroll "Ann" [Finite 1] "ann2.jpg") ([ann; bob], None)
  = Normal ([{| name := "Ann"; descriptors := [[Finite 0]; [Finite 1]];
                photos := ["ann.jpg"; "ann2.jpg"] |}; bob],
            Some (JSON_stringify (serializablePersons
                    [{| name := "Ann"; descriptors := [[Finite 0]; [Finite 1]];
                        photos := ["ann.jpg"; "ann2.jpg"] |}; bob]))).
Proof.
  exact (enroll_written_through "Ann" [Finite 1] "ann2.jpg" [ann; bob] _ None ann_again).
Defined.

Lemma detecting_page_consistent : consistent detecting_page.
Proof.
  apply (run_invariant faceapi_euclideanDistance consistent);
    [apply act_consistent|apply freshPage_consistent].
Defined.

(** Detection runs on Ann when the camera is stopped while a cycle that saw
    her is waiting for the detector: the interval is gone, and Ann is
    announced all the same. *)
Lemma stopWebcam_clears_the_interval_witness :
  isStreamActive (state (world (stopWebcam detecting_page))) = false /\
  detectionActive (state (world (stopWebcam detecting_page))) = false /\
  detectionInterval (stopWebcam detecting_page) = None /\
  world (act faceapi_euclideanDistance (stopWebcam detecting_page) StartDetection)
    = world (stopWebcam detecting_page) /\
  detectionInterval (act faceapi_euclideanDistance (stopWebcam detecting_page) StartDetection)
    = None /\
  notified (world (finishCycle faceapi_euclideanDistance
                     (setNotificationsEnabled true (state (world detecting_page)))
                     (Faces [face_near_ann]) (stopWebcam detecting_page)))
  = notified (detectionTick faceapi_euclideanDistance
                (setNotificationsEnabled true (state (world detecting_page)))
                (Faces [face_near_ann]) (world detecting_page)).
Proof.
  exact (stopWebcam_clears_the_interval faceapi_euclideanDistance detecting_page
           (setNotificationsEnabled true (state (world detecting_page)))
           (Faces [face_near_ann]) detecting_page_consistent eq_refl).
Defined.

Example cycle_in_flight_still_announces :
  notified (world (finishCycle faceapi_euclideanDistance
                     (setNotificationsEnabled true (state (world detecting_page)))
                     (Faces [face_near_ann]) (stopWebcam detecting_page)))
  = ["Ann"].
Proof. vm_compute. reflexivity. Qed.

Lemma enabled_notifications_are_permitted_witness :
  webNotification
    (fst (toggleAll [denied; granted]
            ({| hasNotification := true; permission := default |},
             state (world (freshPage true))))) = true.
Proof.
  exact (enabled_notifications_are_permitted [denied; granted]
           {| hasNotification := true; permission := default |}
           (state (world (freshPage true))) eq_refl eq_refl eq_refl).
Defined.

Lemma reload_after_persist_witness :
  loadSavedPersons ToNumber_not_numeric (persistKnownPersons [ann_with_nan] None)
  = (List.map reloaded [ann_with_nan], []).
Proof.
  refine (proj1 (reload_after_persist ToNumber_not_numeric [ann_with_nan] None) _).
  discriminate.
Defined.

Lemma load_of_a_non_array_witness :
  loadSavedPersons ToNumber_not_numeric (Some (JSONText (JObject [])))
  = ([], [("Error loading saved persons:", "TypeError")]).
Proof.
  refine (load_of_a_non_array ToNumber_not_numeric (JObject []) _).
  discriminate.
Defined.

Lemma restoreEntry_needs_descriptors_witness :
  exists properties ds,
    ann_entry = JObject properties /\
    getProperty ann_entry "descriptors" = Normal (Some (JArray ds)) /\
    length [[Finite 0]] = length ds /\
    getProperty ann_entry "name" = Normal (Some (JString "Ann")) /\
    getProperty ann_entry "photos" = Normal (Some (JArray [JString "ann.jpg"])).
Proof.
  exact (restoreEntry_needs_descriptors ToNumber_not_numeric ann_entry
           {| restored_name := Some (JString "Ann");
              restored_descriptors := [[Finite 0]];
              restored_photos := Some (JArray [JString "ann.jpg"]) |} eq_refl).
Defined.

Lemma restore_is_all_or_nothing_witness :
  exists e', loadSavedPersons ToNumber_not_numeric (Some (JSONText (JArray entries_with_null)))
             = ([], [("Error loading saved persons:", e')]).
Proof.
  refine (proj2 (restore_is_all_or_nothing ToNumber_not_numeric entries_with_null)
                JNull "TypeError" _ eq_refl).
  right. left.
Defined.

Lemma loadModels_loaded_iff_witness :
  isModelLoaded (loadModels main_address_down initialLoading)
  = loadAll main_address_down MODEL_URL || existsb (loadAll main_address_down) backupUrls.
Proof. exact (loadModels_loaded_iff main_address_down initialLoading eq_refl). Defined.

Lemma loadModels_progress_witness :
  modelLoadingProgress (loadModels main_address_down initialLoading) = 100.
Proof.
  refine (proj1 (loadModels_progress main_address_down initialLoading eq_refl) _).
  vm_compute. reflexivity.
Defined.
